(** * Preprocess.py: PDF pages to Markdown, page-layout reconstruction

    A shallow embedding of [PDFToMarkdownConverter] and [FolderPDFConverter]
    of [src/Preprocess.py], and the properties of the column classifier, the
    reading-order sort, the page assembler and the batch driver.

    Modelling conventions.
    - A Python [str] is a list of Unicode code points ([pystr]).
    - PyMuPDF coordinates are Python floats.  A finite float is the
      rational it denotes ([Q]), and [<] and [==] on finite floats are the
      exact comparisons.  [+] and [/] round to binary64 as Python does
      ([Float64]).  NaN and infinite coordinates are outside the model.
    - A Python [int] is a [Z].
    - Exceptions are an explicit [outcome]; code that logs, opens documents
      or writes files runs in a state-and-exception monad over a [world]
      (file system and log records).
    - The [world] holds the files other than the log file
      [./log/RAG.log], and the info- and error-level log records.  The
      debug-level records (block dumps), which reach the log file only, and
      the log file itself are not part of it. *)

From Stdlib Require Import ZArith QArith List String Ascii.
From Stdlib Require Import Sorting.Sorted Sorting.Permutation Lqa.
From stdpp Require Import gmap list pretty.

Local Open Scope Z_scope.
Local Open Scope list_scope.

(** ** Python strings *)

Module PyStr.

Definition pystr := list N.

(** A string literal of ASCII characters. *)
Definition lit (s : string) : pystr :=
  List.map N_of_ascii (list_ascii_of_string s).

(** [str.isspace] on one character: the code points CPython's
    [_PyUnicode_IsWhitespace] accepts. *)
Definition isspace (c : N) : bool :=
  ((9 <=? c) && (c <=? 13) || (28 <=? c) && (c <=? 32)
   || (c =? 133) || (c =? 160) || (c =? 5760)
   || (8192 <=? c) && (c <=? 8202)
   || (c =? 8232) || (c =? 8233) || (c =? 8239) || (c =? 8287)
   || (c =? 12288))%N.

Fixpoint lstrip (s : pystr) : pystr :=
  match s with
  | [] => []
  | c :: s' => if isspace c then lstrip s' else s
  end.

Definition rstrip (s : pystr) : pystr := rev (lstrip (rev s)).

(** [s.strip()]: leading and trailing whitespace removed. *)
Definition strip (s : pystr) : pystr := rstrip (lstrip s).

(** Truth value of a string: non-empty. *)
Definition truthy (s : pystr) : bool :=
  match s with [] => false | _ :: _ => true end.

(** [sep.join(items)]. *)
Fixpoint join (sep : pystr) (items : list pystr) : pystr :=
  match items with
  | [] => []
  | [s] => s
  | s :: rest => s ++ sep ++ join sep rest
  end.

(** [str(n)] for an [int], as an f-string field [{n}] formats it. *)
Definition of_int (n : Z) : pystr := lit (pretty n).

Definition newline : pystr := [10%N].

End PyStr.
Import PyStr.

(** ** posixpath

    [os.path] on a POSIX system, where the paths of the module
    (["./input_data/documents/"]) are written for. *)

Module PosixPath.

Definition sep : N := 47.     (* "/" *)
Definition extsep : N := 46.  (* "." *)

(** [p.rpartition(c)] when [c] occurs in [p]: the parts before and after
    the last occurrence; [None] when [c] does not occur. *)
Fixpoint rpartition (c : N) (p : pystr) : option (pystr * pystr) :=
  match p with
  | [] => None
  | x :: p' =>
      match rpartition c p' with
      | Some (a, b) => Some (x :: a, b)
      | None => if (x =? c)%N then Some ([], p') else None
      end
  end.

(** [os.path.basename(p)]: [p[p.rfind('/') + 1:]]. *)
Definition basename (p : pystr) : pystr :=
  match rpartition sep p with
  | Some (_, b) => b
  | None => p
  end.

(** [os.path.splitext(p)[0]]: the extension starts at the last dot of the
    last path component, unless only dots precede it there. *)
Definition splitext_root (p : pystr) : pystr :=
  let '(dir, name) :=
    match rpartition sep p with
    | Some (d, n) => (d ++ [sep], n)
    | None => ([], p)
    end in
  match rpartition extsep name with
  | Some (stem, _) =>
      if forallb (N.eqb extsep) stem then p else dir ++ stem
  | None => p
  end.

(** [os.path.join(a, b)]. *)
Definition join (a b : pystr) : pystr :=
  if match b with c :: _ => (c =? sep)%N | [] => false end then b
  else match last a with
       | None => a ++ b
       | Some d => if (d =? sep)%N then a ++ b else a ++ [sep] ++ b
       end.

End PosixPath.

(** ** Blocks, as [page.get_text("blocks")] returns them *)

(** The 7-tuple [(x0, y0, x1, y1, text, block_no, block_type)]. *)
Record block := Block {
  x0 : Q;                 (* b[0] *)
  y0 : Q;                 (* b[1] *)
  x1 : Q;                 (* b[2] *)
  y1 : Q;                 (* b[3] *)
  text : pystr;           (* b[4] *)
  block_no : option Z;    (* b[5], may be None *)
  block_type : Z          (* b[6]: 0 text, 1 image *)
}.

Inductive exn : Type :=
| FileDataError    (* fitz.open fails *)
| RuntimeError     (* page.get_text fails *)
| OSError.         (* open / write fails *)

Inductive outcome (A : Type) : Type :=
| Return (a : A)
| Raise (e : exn).
Arguments Return {A} a.
Arguments Raise {A} e.

Definition obind {A B} (m : outcome A) (k : A -> outcome B) : outcome B :=
  match m with
  | Return a => k a
  | Raise e => Raise e
  end.

(** One page of an open document, as the decoder presents it. *)
Record page := Page {
  rect_width : Q;                         (* page.rect.width *)
  get_text_blocks : outcome (list block); (* page.get_text("blocks") *)
  get_text : outcome pystr                (* page.get_text() *)
}.

(** Python's [a < b] on floats. *)
Definition Qltb (a b : Q) : bool := negb (Qle_bool b a).

(** ** binary64 arithmetic

    The results of Python's [+] and [/] on finite floats: the exact result
    rounded to the nearest double, a tie to the one with an even
    significand, infinite when it overflows.  No operation the module uses
    gives NaN from finite operands. *)

Module Float64.

Inductive value : Type :=
| Finite (q : Q)
| PosInf
| NegInf.

(** [(n / d) / 2^k] as a fraction. *)
Definition scaled (n d k : Z) : Z * Z :=
  if 0 <=? k then (n, d * 2 ^ k) else (n * 2 ^ (- k), d).

(** [floor (log2 (n / d))] for positive [n] and [d]. *)
Definition ilog2 (n d : Z) : Z :=
  let g := Z.log2 n - Z.log2 d in
  let '(n', d') := scaled n d g in
  if d' <=? n' then g else g - 1.

(** [n / d] to the nearest integer, a tie to the even one. *)
Definition nearest_even (n d : Z) : Z :=
  let q := n / d in
  match 2 * (n mod d) ?= d with
  | Lt => q
  | Gt => q + 1
  | Eq => if Z.even q then q else q + 1
  end.

(** A positive [n / d] rounded to a double: 53 bits of significand, the
    exponent at least -1022 (below it the doubles are 2^-1074 apart);
    [None] when the rounded value reaches 2^1024. *)
Definition round_pos (n d : Z) : option Q :=
  let e := Z.max (ilog2 n d) (-1022) in
  let k := e - 52 in
  let '(n', d') := scaled n d k in
  let m := nearest_even n' d' in
  if 0 <=? k
  then if 2 ^ 1024 <=? m * 2 ^ k then None else Some (inject_Z (m * 2 ^ k))
  else Some (m # Z.to_pos (2 ^ (- k))).

Definition round (q : Q) : value :=
  match Qnum q with
  | Z0 => Finite 0
  | Zpos n =>
      match round_pos (Zpos n) (Zpos (Qden q)) with
      | Some r => Finite r
      | None => PosInf
      end
  | Zneg n =>
      match round_pos (Zpos n) (Zpos (Qden q)) with
      | Some r => Finite (- r)
      | None => NegInf
      end
  end.

(** [x + y] *)
Definition add (x y : Q) : value := round (x + y).

(** [v / 2] *)
Definition div2 (v : value) : value :=
  match v with
  | Finite q => round (q / 2)
  | PosInf => PosInf
  | NegInf => NegInf
  end.

(** [a < b] *)
Definition ltb (a b : value) : bool :=
  match a, b with
  | Finite x, Finite y => Qltb x y
  | Finite _, PosInf => true
  | Finite _, NegInf => false
  | PosInf, _ => false
  | NegInf, NegInf => false
  | NegInf, _ => true
  end.

End Float64.

(** ** extract_blocks *)

(** The comprehension's condition
    [b[5] is not None and b[6] == 0 and b[4].strip()]. *)
Definition is_text_block (b : block) : bool :=
  match block_no b with
  | None => false
  | Some _ => (block_type b =? 0) && truthy (strip (text b))
  end.

Definition extract_blocks (pg : page) : outcome (list block) :=
  obind (get_text_blocks pg) (fun blocks =>
  Return (List.filter is_text_block blocks)).

(** ** classify_columns *)

(** [center = (x0 + x1) / 2] *)
Definition center (b : block) : Float64.value :=
  Float64.div2 (Float64.add (x0 b) (x1 b)).

(** [center < page_width / 2] *)
Definition is_left (page_width : Q) (b : block) : bool :=
  Float64.ltb (center b) (Float64.div2 (Float64.Finite page_width)).

(** One iteration of the loop: [block] is appended to one of the lists. *)
Definition classify_step (page_width : Q)
    (acc : list block * list block) (b : block) : list block * list block :=
  let '(left_blocks, right_blocks) := acc in
  if is_left page_width b
  then (left_blocks ++ [b], right_blocks)
  else (left_blocks, right_blocks ++ [b]).

Definition classify_columns (blocks : list block) (page_width : Q)
    : list block * list block :=
  fold_left (classify_step page_width) blocks ([], []).

(** ** sort_blocks_reading_order *)

(** Python's [<] on the key tuples [(b[1], b[0])]: the first components
    that differ decide. *)
Definition key_lt (k1 k2 : Q * Q) : bool :=
  if negb (Qeq_bool (fst k1) (fst k2)) then Qltb (fst k1) (fst k2)
  else if negb (Qeq_bool (snd k1) (snd k2)) then Qltb (snd k1) (snd k2)
  else false.

Section SortedBy.
Context {A K : Type} (key : A -> K) (lt : K -> K -> bool).

(** [x] goes before the first element that is not smaller than it. *)
Fixpoint insert_by (x : A) (l : list A) : list A :=
  match l with
  | [] => [x]
  | y :: l' => if lt (key y) (key x) then y :: insert_by x l'
               else x :: y :: l'
  end.

(** [sorted(l, key=key)]: ascending by key, comparing keys with [<]
    only, and stable, as Python guarantees of [sorted].  The guarantee
    fixes the result ([stable_sorted_unique] below), so the insertion
    sort stands for the built-in. *)
Definition sorted (l : list A) : list A := fold_right insert_by [] l.
End SortedBy.

Definition reading_key (b : block) : Q * Q := (y0 b, x0 b).

Definition sort_blocks_reading_order (blocks : list block) : list block :=
  sorted reading_key key_lt blocks.

(** ** join_block_texts *)

Definition join_block_texts (blocks : list block) : pystr :=
  let texts :=
    List.map (fun b => strip (text b))
      (List.filter (fun b => truthy (strip (text b))) blocks) in
  PyStr.join newline texts.

(** ** The environment and the world *)

Definition path := pystr.
Definition document := list page.   (* [for page in self.doc] *)

(** What [open(p, "w")] followed by [f.write(text)] does at a path. *)
Inductive write_behaviour : Type :=
| WriteOk                       (* the file holds the text afterwards *)
| OpenFails (e : exn)           (* [open] raises: nothing is created *)
| WriteFails (n : nat) (e : exn).
    (* [open] created or truncated the file, then writing raised after
       [n] characters reached the file *)

Record env := Env {
  glob_pdf : path -> list path;        (* glob.glob(join(folder, "*.pdf")) *)
  fitz_open : path -> outcome document;(* fitz.open(p) *)
  open_w : path -> write_behaviour
}.

Inductive log_record : Type :=
| InfoOpened (p : path)                 (* "Opened PDF: {p}" *)
| ErrorOpenFailed (p : path) (e : exn)  (* "Failed to open PDF {p}: {e}" *)
| InfoWritten (p : path)                (* "書き込み成功：{p}" *)
| ErrorWriteFailed (p : path) (e : exn) (* "書き込み失敗：{p}: {e}" *)
| InfoSeparator                         (* "=====...=" *)
| InfoProcessing (p : path).            (* "処理中のファイル: {p}" *)

(** The file the module's [FileHandler] appends every record to. *)
Definition log_file : path := lit "./log/RAG.log".

Record world := World {
  fs : gmap path pystr;       (* the files other than [log_file], by path *)
  log : list log_record       (* the info- and error-level records, in the
                                 order they were logged *)
}.

(** State and exceptions: an exception keeps the state reached. *)
Definition M (A : Type) : Type := world -> world * outcome A.

Definition ret {A} (a : A) : M A := fun w => (w, Return a).
Definition raise {A} (e : exn) : M A := fun w => (w, Raise e).
Definition bind {A B} (m : M A) (k : A -> M B) : M B :=
  fun w => match m w with
           | (w', Return a) => k a w'
           | (w', Raise e) => (w', Raise e)
           end.
Definition lift {A} (o : outcome A) : M A := fun w => (w, o).

(** [Logger.info] and [Logger.error]: the record reaches the terminal and
    [log_file].  The [Logger.debug] calls of [extract_blocks] and
    [classify_columns] reach [log_file] only; they return nothing and are
    left out, so that these two are functions. *)
Definition logger (r : log_record) : M unit :=
  fun w => (World (fs w) (log w ++ [r]), Return tt).

Notation "x <- m ;; k" := (bind m (fun x => k))
  (at level 100, m at next level, right associativity).
Notation "m ;;; k" := (bind m (fun _ => k))
  (at level 100, right associativity).

(** ** PDFToMarkdownConverter *)

(** The fields of a converter object. *)
Record converter := Converter {
  pdf_file_path : path;
  md_folder_path : path;
  doc : document;
  md_text : pystr;
  page_number : Z
}.

Section WithEnv.
Variable E : env.

(** [PDFToMarkdownConverter.__init__] *)
Definition new_converter (pdf md_folder : path) (d : document) : converter :=
  Converter pdf md_folder d [] 1.   (* md_text = "", page_number = 1 *)

Definition init (pdf md_folder : path) : M converter :=
  match fitz_open E pdf with
  | Return d =>
      logger (InfoOpened pdf) ;;;
      ret (new_converter pdf md_folder d)
  | Raise e =>
      logger (ErrorOpenFailed pdf e) ;;;
      raise e
  end.

(** [f"## ページ {n}\n\n{body}\n\n"] *)
Definition page_heading : pystr := lit "## " ++ [12506; 12540; 12472]%N ++ lit " ".
Definition page_block (n : Z) (body : pystr) : pystr :=
  page_heading ++ of_int n ++ newline ++ newline ++ body ++ newline ++ newline.

(** The condition of line 181. *)
Definition is_two_column (left_blocks right_blocks : list block) : bool :=
  (2 <=? length left_blocks)%nat && (2 <=? length right_blocks)%nat.

(** Assignments to [self.md_text] and [self.page_number]. *)
Definition with_output (c : converter) (md : pystr) (n : Z) : converter :=
  Converter (pdf_file_path c) (md_folder_path c) (doc c) md n.

(** The body of the [for page in self.doc] loop. *)
Definition process_page (c : converter) (pg : page) : outcome converter :=
  let width := rect_width pg in
  obind (extract_blocks pg) (fun blocks =>
  let '(left_blocks, right_blocks) := classify_columns blocks width in
  if is_two_column left_blocks right_blocks then
    let left_blocks := sort_blocks_reading_order left_blocks in
    let right_blocks := sort_blocks_reading_order right_blocks in
    let left_text := join_block_texts left_blocks in
    let right_text := join_block_texts right_blocks in
    let md1 := md_text c ++ page_block (page_number c) left_text in
    let n1 := page_number c + 1 in
    let md2 := md1 ++ page_block n1 right_text in
    let n2 := n1 + 1 in
    Return (with_output c md2 n2)
  else
    obind (get_text pg) (fun t =>
    let full_text := strip t in
    let md1 := md_text c ++ page_block (page_number c) full_text in
    let n1 := page_number c + 1 in
    Return (with_output c md1 n1))).

Fixpoint process_pages (c : converter) (pages : list page) : outcome converter :=
  match pages with
  | [] => Return c
  | pg :: rest => obind (process_page c pg) (fun c' => process_pages c' rest)
  end.

Definition md_suffix : pystr := lit ".md".

Definition preprocessed_path (c : converter) : path :=
  let base_name := PosixPath.splitext_root (PosixPath.basename (pdf_file_path c)) in
  PosixPath.join (md_folder_path c) (base_name ++ md_suffix).

(** The [try] block of [process]: [open(p, "w")], [f.write(text)], the
    info record; on an exception the error record and [raise e]. *)
Definition write_file (p : path) (txt : pystr) : M unit :=
  match open_w E p with
  | WriteOk =>
      (fun w => (World (<[p := txt]> (fs w)) (log w), Return tt)) ;;;
      logger (InfoWritten p)
  | OpenFails e =>
      logger (ErrorWriteFailed p e) ;;;
      raise e
  | WriteFails n e =>
      (fun w => (World (<[p := take n txt]> (fs w)) (log w), Return tt)) ;;;
      logger (ErrorWriteFailed p e) ;;;
      raise e
  end.

(** [PDFToMarkdownConverter.process] *)
Definition process (c : converter) : M unit :=
  c' <- lift (process_pages c (doc c)) ;;
  write_file (preprocessed_path c') (md_text c').

(** ** FolderPDFConverter.process_all *)

(** The body of the [for pdf_file_path in pdf_files] loop. *)
Definition process_file (pdf_file_path output_folder_path : path) : M unit :=
  logger InfoSeparator ;;;
  logger (InfoProcessing pdf_file_path) ;;;
  c <- init pdf_file_path output_folder_path ;;
  process c.

Fixpoint process_files (pdf_files : list path) (output_folder_path : path) : M unit :=
  match pdf_files with
  | [] => ret tt
  | pdf_file_path :: rest =>
      process_file pdf_file_path output_folder_path ;;;
      process_files rest output_folder_path
  end.

Definition process_all (input_folder_path output_folder_path : path) : M unit :=
  process_files (glob_pdf E input_folder_path) output_folder_path.

End WithEnv.

(** ** Specification view: predicates *)

#[local] Instance Qlt_decision (x y : Q) : Decision (x < y)%Q.
Proof.
  destruct (Qlt_le_dec x y) as [Hlt | Hle]; [left; exact Hlt | right].
  apply Qle_not_lt. exact Hle.
Defined.

#[local] Instance Qeq_decision (x y : Q) : Decision (x == y)%Q := Qeq_dec x y.

(** A fragment that takes part downstream: kind Text, a sequence id, and
    text that is not empty once trimmed. *)
Definition text_fragment (b : block) : Prop :=
  block_type b = 0 /\ is_Some (block_no b) /\ strip (text b) <> [].

#[local] Instance text_fragment_dec (b : block) : Decision (text_fragment b).
Proof. unfold text_fragment. apply _. Defined.

(** The order and the equality of float values. *)
Definition float_lt (a b : Float64.value) : Prop :=
  match a, b with
  | Float64.Finite x, Float64.Finite y => (x < y)%Q
  | Float64.Finite _, Float64.PosInf => True
  | Float64.NegInf, Float64.Finite _ => True
  | Float64.NegInf, Float64.PosInf => True
  | _, _ => False
  end.

Definition float_eq (a b : Float64.value) : Prop :=
  match a, b with
  | Float64.Finite x, Float64.Finite y => (x == y)%Q
  | Float64.PosInf, Float64.PosInf => True
  | Float64.NegInf, Float64.NegInf => True
  | _, _ => False
  end.

(** The float value [v] is the rational [q]: the operations that gave [v]
    did not round. *)
Definition float_exact (v : Float64.value) (q : Q) : Prop :=
  match v with
  | Float64.Finite x => (x == q)%Q
  | _ => False
  end.

#[local] Instance float_lt_dec (a b : Float64.value) : Decision (float_lt a b).
Proof. destruct a, b; unfold float_lt; apply _. Defined.

(** The midpoint rule, as the specification words it:
    [(x0 + x1) / 2 < page_width / 2], in the arithmetic of floats. *)
Definition left_of_centre (page_width : Q) (b : block) : Prop :=
  float_lt (Float64.div2 (Float64.add (x0 b) (x1 b)))
           (Float64.div2 (Float64.Finite page_width)).

(** [(y0, x0)] of [a] is at most that of [b], lexicographically. *)
Definition key_le (a b : block) : Prop :=
  (y0 a < y0 b \/ (y0 a == y0 b /\ x0 a <= x0 b))%Q.

(** The blocks whose [(y0, x0)] is the pair [k]. *)
Definition has_key (k : Q * Q) (b : block) : Prop :=
  (y0 b == fst k /\ x0 b == snd k)%Q.

#[local] Instance has_key_dec (k : Q * Q) (b : block) : Decision (has_key k b).
Proof. unfold has_key. apply _. Defined.

(** ** Specification view: logical pages

    The specification speaks of the LogicalPages a physical page emits; the
    code only appends their text to [md_text].  These definitions follow the
    specification's words (4.5), to be compared with [process_page]. *)

Record logical_page := LogicalPage { number : Z; body : pystr }.

(** The bodies one physical page emits: left column then right column for
    a two-column page, the trimmed whole-page text otherwise. *)
Definition page_bodies (pg : page) : outcome (list pystr) :=
  obind (extract_blocks pg) (fun blocks =>
  let left_blocks := fst (classify_columns blocks (rect_width pg)) in
  let right_blocks := snd (classify_columns blocks (rect_width pg)) in
  if is_two_column left_blocks right_blocks then
    Return [join_block_texts (sort_blocks_reading_order left_blocks);
            join_block_texts (sort_blocks_reading_order right_blocks)]
  else
    obind (get_text pg) (fun t => Return [strip t])).

(** The bodies of a document, page after page; the first failing page
    fails the document. *)
Fixpoint document_bodies (pages : list page) : outcome (list pystr) :=
  match pages with
  | [] => Return []
  | pg :: rest =>
      obind (page_bodies pg) (fun bodies =>
      obind (document_bodies rest) (fun more =>
      Return (bodies ++ more)))
  end.

(** Bodies numbered consecutively from [n]. *)
Fixpoint number_from (n : Z) (bodies : list pystr) : list logical_page :=
  match bodies with
  | [] => []
  | b :: rest => LogicalPage n b :: number_from (n + 1) rest
  end.

Definition format_page (lp : logical_page) : pystr :=
  page_block (number lp) (body lp).

(** The text of a sequence of logical pages. *)
Definition render (lps : list logical_page) : pystr :=
  concat (List.map format_page lps).

(** A converter after it has emitted logical pages with these bodies. *)
Definition emit (c : converter) (bodies : list pystr) : converter :=
  with_output c
    (md_text c ++ render (number_from (page_number c) bodies))
    (page_number c + Z.of_nat (length bodies)).

(** The page block with the heading as the specification words it,
    ["## Page {number}\n\n{body}\n\n"]. *)
Definition worded_page_block (n : Z) (body : pystr) : pystr :=
  lit "## Page " ++ of_int n ++ newline ++ newline ++ body ++ newline ++ newline.

(** ** Sample inputs *)

Module Samples.

(** A text block one unit wide at [(x, y)]. *)
Definition text_block (x y : Q) (t : string) : block :=
  Block x y (x + 1) (y + 1) (lit t) (Some 0) 0.

(** Scenario A of the specification: three blocks on each side of a page
    600 wide, not in reading order. *)
Definition facing_blocks : list block :=
  [ text_block 5 50 "l3"; text_block 305 50 "r3";
    text_block 60 10 "l2 "; text_block 360 10 "r2";
    text_block 5 10 " l1"; text_block 305 10 "r1" ].

Definition facing_page : page :=
  Page 600 (Return facing_blocks) (Return (lit "whole page")).

(** Scenario C: a page without blocks and without text. *)
Definition empty_page : page := Page 600 (Return []) (Return []).

(** A page with one block: single column. *)
Definition plain_page : page :=
  Page 600 (Return [text_block 5 10 "title"]) (Return (lit " title  ")).

(** A page the decoder cannot read. *)
Definition broken_page : page :=
  Page 600 (Raise RuntimeError) (Raise RuntimeError).

Definition a_pdf : path := lit "./input_data/documents/a.pdf".
Definition b_pdf : path := lit "./input_data/documents/b.pdf".
Definition out_dir : path := lit "./preprocessed_data/documents/".
Definition a_md : path := lit "./preprocessed_data/documents/a.md".
Definition b_md : path := lit "./preprocessed_data/documents/b.md".

Definition empty_world : world := World ∅ [].

(** Every document opens and has one empty page; every write succeeds. *)
Definition env_ok : env :=
  Env (fun _ => [a_pdf; b_pdf]) (fun _ => Return [empty_page]) (fun _ => WriteOk).

(** Writing fails after five characters have reached the file. *)
Definition env_write_fails : env :=
  Env (fun _ => [a_pdf; b_pdf]) (fun _ => Return [empty_page])
      (fun _ => WriteFails 5 OSError).

(** The first document of the folder cannot be opened. *)
Definition env_open_fails : env :=
  Env (fun _ => [a_pdf; b_pdf])
      (fun p => if decide (p = a_pdf) then Raise FileDataError
                else Return [empty_page])
      (fun _ => WriteOk).

End Samples.

Module MoreSamples.

(** Every document opens; its second page cannot be decoded. *)
Definition env_broken : env :=
  Env (fun _ => [Samples.a_pdf; Samples.b_pdf])
      (fun _ => Return [Samples.empty_page; Samples.broken_page])
      (fun _ => WriteOk).

Definition c_pdf : path := lit "./input_data/documents/c.pdf".
Definition c_md : path := lit "./preprocessed_data/documents/c.md".

(** Three documents; the second cannot be opened. *)
Definition env_second_fails : env :=
  Env (fun _ => [Samples.a_pdf; Samples.b_pdf; c_pdf])
      (fun p => if decide (p = Samples.b_pdf) then Raise FileDataError
                else Return [Samples.empty_page])
      (fun _ => WriteOk).

(** A block whose left edge is just left of the page: [x0 = -2^-46],
    [x1 = 595]. *)
Definition edge_block : block :=
  Block (-1 # 70368744177664) 10 595 20 (lit "edge") (Some 0) 0.

(** A file that is not the output of any document. *)
Definition notes : path := lit "./preprocessed_data/documents/notes.txt".

Definition world_with_notes : world :=
  World {[ notes := lit "keep" ]} [].

End MoreSamples.

(** * Properties *)

(** ** Strings *)

Lemma truthy_true (s : pystr) : truthy s = true <-> s <> [].
Proof. destruct s; simpl; split; congruence. Qed.

Lemma lstrip_split (s : pystr) :
  exists pre, s = pre ++ lstrip s /\ Forall (fun c => isspace c = true) pre.
Proof.
  induction s as [|c s IH]; simpl.
  - exists []. split; [reflexivity | constructor].
  - destruct (isspace c) eqn:Hc.
    + destruct IH as (pre & Hs & Hpre).
      exists (c :: pre). split; [simpl; congruence | constructor; assumption].
    + exists []. split; [reflexivity | constructor].
Qed.

Lemma lstrip_head (s : pystr) (c : N) :
  head (lstrip s) = Some c -> isspace c = false.
Proof.
  induction s as [|d s IH]; simpl; [discriminate |].
  destruct (isspace d) eqn:Hd; [exact IH |].
  simpl. intros [= <-]. exact Hd.
Qed.


Lemma lstrip_snoc_nonspace (s : pystr) (c : N) :
  isspace c = false -> lstrip (s ++ [c]) <> [].
Proof.
  intros Hc. induction s as [|d s IH]; simpl.
  - rewrite Hc. discriminate.
  - destruct (isspace d); [exact IH | discriminate].
Qed.

Lemma rstrip_split (s : pystr) :
  exists post, s = rstrip s ++ post /\ Forall (fun c => isspace c = true) post.
Proof.
  unfold rstrip. destruct (lstrip_split (rev s)) as (pre & Hs & Hpre).
  exists (rev pre). split.
  - rewrite <- rev_app_distr, <- Hs. symmetry. apply rev_involutive.
  - apply List.Forall_rev. exact Hpre.
Qed.

Lemma rstrip_last (s : pystr) (c : N) :
  last (rstrip s) = Some c -> isspace c = false.
Proof.
  unfold rstrip. intros H. apply (lstrip_head (rev s)).
  destruct (lstrip (rev s)) as [|d l] eqn:Hl; simpl in *; [discriminate |].
  rewrite last_snoc in H. exact H.
Qed.

(** Stripping on the right keeps the first character of a string that
    starts with a non-space character. *)
Lemma rstrip_head (s : pystr) (c d : N) :
  head s = Some d -> isspace d = false ->
  head (rstrip s) = Some c -> c = d.
Proof.
  intros Hd Hsp. destruct s as [|x s]; [discriminate |].
  simpl in Hd. injection Hd as ->. unfold rstrip. simpl rev.
  destruct (lstrip_split (rev s ++ [d])) as (pre & Hs & Hpre).
  pose proof (lstrip_snoc_nonspace (rev s) d Hsp) as Hne.
  (* the last character of the stripped reverse is still [d] *)
  assert (Hlast : last (lstrip (rev s ++ [d])) = Some d).
  { destruct (lstrip (rev s ++ [d])) as [|y l] eqn:Hl using rev_ind;
      [congruence |].
    clear IHl. rewrite last_snoc. f_equal.
    rewrite app_assoc in Hs. apply app_inj_tail in Hs. symmetry. apply Hs. }
  destruct (lstrip (rev s ++ [d])) as [|y l] eqn:Hl using rev_ind;
    [congruence |].
  rewrite last_snoc in Hlast. injection Hlast as ->.
  rewrite rev_app_distr. simpl. congruence.
Qed.

(** [strip] removes whitespace at both ends and nothing else. *)
Lemma strip_split (s : pystr) :
  exists pre post,
    s = pre ++ strip s ++ post /\
    Forall (fun c => isspace c = true) pre /\
    Forall (fun c => isspace c = true) post.
Proof.
  unfold strip.
  destruct (lstrip_split s) as (pre & Hs & Hpre).
  destruct (rstrip_split (lstrip s)) as (post & Hr & Hpost).
  exists pre, post. split; [| split; assumption].
  rewrite <- Hr. exact Hs.
Qed.

Lemma strip_head (s : pystr) (c : N) :
  head (strip s) = Some c -> isspace c = false.
Proof.
  unfold strip. intros H.
  destruct (lstrip s) as [|d l] eqn:Hl.
  - discriminate H.
  - assert (Hd : isspace d = false).
    { apply (lstrip_head s). rewrite Hl. reflexivity. }
    rewrite (rstrip_head (d :: l) c d eq_refl Hd H). exact Hd.
Qed.

Lemma strip_last (s : pystr) (c : N) :
  last (strip s) = Some c -> isspace c = false.
Proof. unfold strip. apply rstrip_last. Qed.

Example strip_ideographic_space :
  strip ([12288; 32; 97; 32; 98; 10; 12288]%N) = [97; 32; 98]%N.
Proof. reflexivity. Qed.

(** ** Lists *)

(** A boolean filter that decides [P] is stdpp's filter on [P]. *)
Lemma filter_bool_prop {A} (f : A -> bool) (P : A -> Prop)
    `{forall x, Decision (P x)} (l : list A) :
  (forall x, f x = true <-> P x) -> List.filter f l = filter P l.
Proof.
  intros Hf. induction l as [|x l IH]; [reflexivity |].
  simpl. rewrite filter_cons. destruct (decide (P x)) as [HP | HP].
  - apply Hf in HP. rewrite HP, IH. reflexivity.
  - destruct (f x) eqn:Hx; [apply Hf in Hx; contradiction | exact IH].
Qed.

Lemma Qltb_lt (a b : Q) : Qltb a b = true <-> (a < b)%Q.
Proof.
  unfold Qltb. rewrite negb_true_iff, <- not_true_iff_false, Qle_bool_iff.
  split; [apply Qnot_le_lt | apply Qlt_not_le].
Qed.


(** ** extract_blocks (C9) *)

Lemma is_text_block_spec (b : block) :
  is_text_block b = true <-> text_fragment b.
Proof.
  unfold is_text_block, text_fragment.
  destruct (block_no b) as [n|].
  - rewrite andb_true_iff, Z.eqb_eq, truthy_true.
    split; [intros [? ?]; eauto | tauto].
  - split; [discriminate | intros (_ & [n Hn] & _); discriminate].
Qed.

Lemma classify_step_fold (w : Q) (blocks l r : list block) :
  fold_left (classify_step w) blocks (l, r) =
  (l ++ List.filter (is_left w) blocks,
   r ++ List.filter (fun b => negb (is_left w b)) blocks).
Proof.
  revert l r. induction blocks as [|b blocks IH]; intros l r; simpl.
  - rewrite !app_nil_r. reflexivity.
  - destruct (is_left w b); simpl; rewrite IH, <- app_assoc; reflexivity.
Qed.

Lemma classify_columns_filter (blocks : list block) (w : Q) :
  classify_columns blocks w =
  (List.filter (is_left w) blocks,
   List.filter (fun b => negb (is_left w b)) blocks).
Proof. unfold classify_columns. apply classify_step_fold. Qed.

Lemma filter_bool_Forall {A} (f : A -> bool) (P : A -> Prop) (l : list A) :
  Forall P l -> Forall P (List.filter f l).
Proof.
  induction 1 as [|x l Hx Hl IH]; simpl; [constructor |].
  destruct (f x); [constructor |]; assumption.
Qed.

(** C9. [extract_blocks] returns exactly the blocks of
    [page.get_text("blocks")] that are text fragments (type 0, a block
    number, non-empty trimmed text), in their order; an error of the decoder
    is passed on; and the two groups [classify_columns] makes of the
    extracted blocks hold text fragments only. *)
Theorem extract_blocks_text_fragments (pg : page) :
  match get_text_blocks pg with
  | Raise e => extract_blocks pg = Raise e
  | Return blocks =>
      extract_blocks pg = Return (filter text_fragment blocks) /\
      Forall text_fragment (filter text_fragment blocks) /\
      Forall text_fragment
        (fst (classify_columns (filter text_fragment blocks) (rect_width pg))) /\
      Forall text_fragment
        (snd (classify_columns (filter text_fragment blocks) (rect_width pg)))
  end.
Proof.
  unfold extract_blocks. destruct (get_text_blocks pg) as [blocks | e]; simpl;
    [| reflexivity].
  assert (Hall : Forall text_fragment (filter text_fragment blocks)).
  { apply Forall_forall. intros b Hb. apply list_elem_of_filter in Hb. tauto. }
  rewrite (filter_bool_prop is_text_block text_fragment blocks is_text_block_spec).
  rewrite classify_columns_filter. simpl.
  repeat split; auto using filter_bool_Forall.
Qed.

(** ** classify_columns (C4) *)

Lemma float_ltb_lt (a b : Float64.value) :
  Float64.ltb a b = true <-> float_lt a b.
Proof.
  destruct a, b; cbn [Float64.ltb float_lt];
    try apply Qltb_lt; split; try discriminate; tauto.
Qed.


Lemma float_exact_lt (a b : Float64.value) (x y : Q) :
  float_exact a x -> float_exact b y -> (float_lt a b <-> (x < y)%Q).
Proof.
  destruct a, b; cbn [float_exact float_lt]; try tauto.
  intros -> ->. reflexivity.
Qed.

Lemma is_left_spec (w : Q) (b : block) :
  is_left w b = true <-> left_of_centre w b.
Proof. unfold is_left, left_of_centre, center. apply float_ltb_lt. Qed.

Lemma is_right_spec (w : Q) (b : block) :
  negb (is_left w b) = true <-> ~ left_of_centre w b.
Proof.
  rewrite negb_true_iff, <- not_true_iff_false, is_left_spec. reflexivity.
Qed.

Lemma filter_bool_partition {A} (f : A -> bool) (l : list A) :
  l ≡ₚ List.filter f l ++ List.filter (fun x => negb (f x)) l.
Proof.
  induction l as [|x l IH]; simpl; [reflexivity |].
  destruct (f x); simpl.
  - constructor. exact IH.
  - rewrite <- Permutation_middle. constructor. exact IH.
Qed.


(** The sum [-2^-46 + 595] rounds to [595], so on a page 595 wide the block
    is not left of the middle, although its exact midpoint is; half of a
    page width of 2^-1074 is 0, so a block at 0 is not left of it; a block
    whose sides are small integers is classified by its exact midpoint. *)
Example classify_columns_rounds :
  classify_columns [MoreSamples.edge_block] 595 = ([], [MoreSamples.edge_block]) /\
  ((x0 MoreSamples.edge_block + x1 MoreSamples.edge_block) / 2 < 595 / 2)%Q /\
  classify_columns [Block 0 0 0 0 (lit "z") (Some 0) 0] (1 # 2 ^ 1074) =
    ([], [Block 0 0 0 0 (lit "z") (Some 0) 0]) /\
  classify_columns [Samples.text_block 5 10 "a"; Samples.text_block 300 10 "b"] 601 =
    ([Samples.text_block 5 10 "a"], [Samples.text_block 300 10 "b"]).
Proof. split; [| split; [| split]]; vm_compute; reflexivity. Qed.

(** Underflow, overflow and rounding: half of the smallest double is 0,
    the sum of the largest double with itself is infinite, and
    [0.1 + 0.2] is [0.30000000000000004]. *)
Example float64_edges :
  float_eq (Float64.div2 (Float64.Finite (1 # 2 ^ 1074))) (Float64.Finite 0) /\
  Float64.add (inject_Z (2 ^ 1024 - 2 ^ 971)) (inject_Z (2 ^ 1024 - 2 ^ 971)) =
    Float64.PosInf /\
  float_eq (Float64.add (3602879701896397 # 2 ^ 55) (3602879701896397 # 2 ^ 54))
           (Float64.Finite (1351079888211149 # 2 ^ 52)).
Proof. split; [| split]; vm_compute; reflexivity. Qed.

(** ** sort_blocks_reading_order (C6) *)

Lemma key_lt_spec (a b : block) :
  key_lt (reading_key a) (reading_key b) = true <->
  (y0 a < y0 b \/ (y0 a == y0 b /\ x0 a < x0 b))%Q.
Proof.
  unfold key_lt, reading_key. cbn [fst snd].
  destruct (Qeq_bool (y0 a) (y0 b)) eqn:Hy; cbn [negb].
  - apply Qeq_bool_iff in Hy.
    destruct (Qeq_bool (x0 a) (x0 b)) eqn:Hx; cbn [negb].
    + apply Qeq_bool_iff in Hx. split; [discriminate |].
      intros [H | [_ H]]; [rewrite Hy in H | rewrite Hx in H];
        destruct (Qlt_irrefl _ H).
    + rewrite Qltb_lt. split; [auto |].
      intros [H | [_ H]]; [| exact H].
      rewrite Hy in H. destruct (Qlt_irrefl _ H).
  - apply Qeq_bool_neq in Hy. rewrite Qltb_lt. split; [auto |].
    intros [H | [H _]]; [exact H | contradiction].
Qed.

Lemma key_lt_le (a b : block) :
  key_lt (reading_key a) (reading_key b) = true -> key_le a b.
Proof.
  rewrite key_lt_spec. unfold key_le.
  intros [H | [H1 H2]]; [left; exact H | right].
  split; [exact H1 | apply Qlt_le_weak; exact H2].
Qed.

Lemma key_not_lt_le (a b : block) :
  key_lt (reading_key a) (reading_key b) = false -> key_le b a.
Proof.
  intros H. apply not_true_iff_false in H. rewrite key_lt_spec in H.
  unfold key_le.
  destruct (Qlt_le_dec (y0 b) (y0 a)) as [Hlt | Hle]; [left; exact Hlt |].
  right. destruct (Qlt_le_dec (y0 a) (y0 b)) as [Hlt' | Hle'];
    [destruct H; left; exact Hlt' |].
  assert (Hy : (y0 a == y0 b)%Q) by (apply Qle_antisym; assumption).
  split; [symmetry; exact Hy |].
  destruct (Qlt_le_dec (x0 a) (x0 b)) as [Hx | Hx]; [| exact Hx].
  destruct H. right. split; assumption.
Qed.

Lemma key_le_trans (a b c : block) : key_le a b -> key_le b c -> key_le a c.
Proof. unfold key_le. intros [H1 | [H1 H1']] [H2 | [H2 H2']]; lra. Qed.

Lemma key_lt_has_key (k : Q * Q) (a b : block) :
  key_lt (reading_key a) (reading_key b) = true ->
  has_key k a -> has_key k b -> False.
Proof.
  rewrite key_lt_spec. unfold has_key. intros [H | [_ H]] [Ha Ha'] [Hb Hb']; lra.
Qed.

Section InsertBy.
Local Abbreviation ins := (insert_by reading_key key_lt).

Lemma insert_by_perm (x : block) (l : list block) : ins x l ≡ₚ x :: l.
Proof.
  induction l as [|y l IH]; simpl; [reflexivity |].
  destruct (key_lt (reading_key y) (reading_key x)); [| reflexivity].
  rewrite IH. apply perm_swap.
Qed.

Lemma insert_by_HdRel (a x : block) (l : list block) :
  key_le a x -> HdRel key_le a l -> HdRel key_le a (ins x l).
Proof.
  intros Hax Hal. destruct l as [|y l]; simpl; [constructor; exact Hax |].
  destruct (key_lt (reading_key y) (reading_key x)); constructor;
    [inversion Hal; assumption | exact Hax].
Qed.

Lemma insert_by_Sorted (x : block) (l : list block) :
  Sorted key_le l -> Sorted key_le (ins x l).
Proof.
  induction 1 as [|y l Hl IH Hhd]; simpl; [repeat constructor |].
  destruct (key_lt (reading_key y) (reading_key x)) eqn:Hlt.
  - constructor; [exact IH |].
    apply insert_by_HdRel; [apply key_lt_le; exact Hlt | exact Hhd].
  - constructor; [constructor; assumption |].
    constructor. apply key_not_lt_le. exact Hlt.
Qed.

(** Inserting [x] puts it in front of the blocks with its key. *)
Lemma insert_by_filter (k : Q * Q) (x : block) (l : list block) :
  filter (has_key k) (ins x l) = filter (has_key k) (x :: l).
Proof.
  induction l as [|y l IH]; simpl; [reflexivity |].
  destruct (key_lt (reading_key y) (reading_key x)) eqn:Hlt; [| reflexivity].
  rewrite (filter_cons _ y), IH, !filter_cons.
  destruct (decide (has_key k y)) as [Hy | Hy],
           (decide (has_key k x)) as [Hx | Hx]; try reflexivity.
  destruct (key_lt_has_key k y x Hlt Hy Hx).
Qed.
End InsertBy.

(** Python's contract determines the result: two lists in non-decreasing
    key order that agree, key by key, on the blocks with that key and their
    order are the same list.  So every stable sort returns what [sorted]
    returns here. *)
Lemma stable_sorted_unique (l1 l2 : list block) :
  StronglySorted key_le l1 -> StronglySorted key_le l2 ->
  (forall k, filter (has_key k) l1 = filter (has_key k) l2) ->
  l1 = l2.
Proof.
  intros H1. revert l2. induction H1 as [|a l1 Hs1 IH Ha1]; intros l2 H2 Heq.
  - destruct l2 as [|b l2]; [reflexivity |].
    specialize (Heq (reading_key b)). rewrite filter_cons in Heq.
    destruct (decide (has_key (reading_key b) b)) as [_ | Hn];
      [discriminate Heq |].
    destruct Hn. split; reflexivity.
  - assert (Haa : has_key (reading_key a) a) by (split; reflexivity).
    destruct l2 as [|b l2].
    + specialize (Heq (reading_key a)). rewrite filter_cons in Heq.
      destruct (decide (has_key (reading_key a) a)); [discriminate | contradiction].
    + assert (Hbb : has_key (reading_key b) b) by (split; reflexivity).
      inversion H2 as [|? ? Hs2 Hb2]; subst.
      assert (Hab : has_key (reading_key a) b).
      { destruct (decide (has_key (reading_key a) b)) as [Hk | Hk]; [exact Hk |].
        exfalso.
        (* [a] occurs in [l2] and [b] occurs in [l1]: each is at most the other *)
        assert (Hain : a ∈ l2).
        { pose proof (Heq (reading_key a)) as Hka. rewrite !filter_cons in Hka.
          destruct (decide (has_key (reading_key a) a)); [| contradiction].
          destruct (decide (has_key (reading_key a) b)); [contradiction |].
          assert (Hin : a ∈ filter (has_key (reading_key a)) l2)
            by (rewrite <- Hka; left).
          apply list_elem_of_filter in Hin. tauto. }
        assert (Hbin : b ∈ l1).
        { pose proof (Heq (reading_key b)) as Hkb. rewrite !filter_cons in Hkb.
          destruct (decide (has_key (reading_key b) b)); [| contradiction].
          destruct (decide (has_key (reading_key b) a)) as [Hba | Hba].
          - destruct Hk. destruct Hba as [Hy Hx]. unfold has_key, reading_key in *.
            cbn [fst snd] in *. split; symmetry; assumption.
          - assert (Hin : b ∈ filter (has_key (reading_key b)) l1)
              by (rewrite Hkb; left).
            apply list_elem_of_filter in Hin. tauto. }
        rewrite Forall_forall in Ha1, Hb2.
        specialize (Ha1 b Hbin). specialize (Hb2 a Hain).
        apply Hk. unfold has_key, key_le, reading_key in *. cbn [fst snd].
        destruct Ha1 as [? | [? ?]], Hb2 as [? | [? ?]]; split; lra. }
      assert (Hhd : a = b).
      { pose proof (Heq (reading_key a)) as Hka. rewrite !filter_cons in Hka.
        destruct (decide (has_key (reading_key a) a)); [| contradiction].
        destruct (decide (has_key (reading_key a) b)); [| contradiction].
        congruence. }
      subst b. f_equal. apply IH; [exact Hs2 |].
      intros k. specialize (Heq k). rewrite !filter_cons in Heq.
      destruct (decide (has_key k a)); congruence.
Qed.

(** C6. [sort_blocks_reading_order] returns a permutation of its input in
    which [(y0, x0)] never decreases (first [y0], then [x0]), and it is
    stable: the blocks with any one [(y0, x0)] keep their input order. *)
Theorem sort_blocks_reading_order_stable (blocks : list block) :
  sort_blocks_reading_order blocks ≡ₚ blocks /\
  StronglySorted key_le (sort_blocks_reading_order blocks) /\
  forall k : Q * Q,
    filter (has_key k) (sort_blocks_reading_order blocks) =
    filter (has_key k) blocks.
Proof.
  unfold sort_blocks_reading_order, sorted. split; [| split].
  - induction blocks as [|x l IH]; simpl; [reflexivity |].
    rewrite insert_by_perm, IH. reflexivity.
  - apply Sorted_StronglySorted; [exact key_le_trans |].
    induction blocks as [|x l IH]; simpl; [constructor |].
    apply insert_by_Sorted. exact IH.
  - intros k. induction blocks as [|x l IH]; simpl; [reflexivity |].
    rewrite insert_by_filter, !filter_cons, IH. reflexivity.
Qed.

(** ** join_block_texts (C10) *)

Lemma join_block_texts_pieces (blocks : list block) :
  List.map (fun b => strip (text b))
    (List.filter (fun b => truthy (strip (text b))) blocks) =
  filter (fun s : pystr => s <> []) (List.map (fun b => strip (text b)) blocks).
Proof.
  induction blocks as [|b blocks IH]; [reflexivity |].
  cbn [List.filter List.map]. rewrite filter_cons.
  destruct (decide (strip (text b) <> [])) as [Hne | He].
  - apply truthy_true in Hne. rewrite Hne. cbn [List.map]. rewrite IH.
    reflexivity.
  - destruct (truthy (strip (text b))) eqn:Ht; [| exact IH].
    apply truthy_true in Ht. contradiction.
Qed.

(** C10. The text of a column is the [strip]ped texts of its blocks, the
    empty ones left out, joined by one newline; every joined piece is a
    block's text without the whitespace at its two ends, is not empty, and
    neither starts nor ends with a whitespace character. *)
Theorem join_block_texts_trimmed (blocks : list block) :
  let pieces :=
    filter (fun s : pystr => s <> []) (List.map (fun b => strip (text b)) blocks) in
  join_block_texts blocks = PyStr.join newline pieces /\
  Forall (fun s : pystr =>
            s <> [] /\
            (exists b pre post,
               b ∈ blocks /\ text b = pre ++ s ++ post /\
               Forall (fun c => isspace c = true) pre /\
               Forall (fun c => isspace c = true) post) /\
            (forall c, head s = Some c -> isspace c = false) /\
            (forall c, last s = Some c -> isspace c = false)) pieces /\
  PyStr.join newline [] = [] /\
  (forall s, PyStr.join newline [s] = s) /\
  (forall s t rest,
     PyStr.join newline (s :: t :: rest) =
     s ++ [10%N] ++ PyStr.join newline (t :: rest)).
Proof.
  intros pieces. subst pieces. split; [| split; [| auto]].
  - unfold join_block_texts. rewrite join_block_texts_pieces. reflexivity.
  - apply Forall_forall. intros s Hs.
    apply list_elem_of_filter in Hs as [Hne Hs].
    apply list_elem_of_In, in_map_iff in Hs as (b & <- & Hb).
    split; [exact Hne |]. split; [| split].
    + destruct (strip_split (text b)) as (pre & post & Heq & Hpre & Hpost).
      exists b, pre, post. apply list_elem_of_In in Hb. auto.
    + apply strip_head.
    + apply strip_last.
Qed.

(** ** The page assembler *)

Lemma is_two_column_true (l r : list block) :
  is_two_column l r = true <-> (2 <= length l /\ 2 <= length r)%nat.
Proof.
  unfold is_two_column. rewrite andb_true_iff, !Nat.leb_le. reflexivity.
Qed.

Lemma is_two_column_false (l r : list block) :
  is_two_column l r = false <-> (length l < 2 \/ length r < 2)%nat.
Proof.
  unfold is_two_column. rewrite andb_false_iff, !Nat.leb_gt. reflexivity.
Qed.

Lemma process_page_two_column (c : converter) (pg : page) (blocks : list block) :
  extract_blocks pg = Return blocks ->
  is_two_column (fst (classify_columns blocks (rect_width pg)))
                (snd (classify_columns blocks (rect_width pg))) = true ->
  process_page c pg =
  Return (with_output c
    (md_text c
     ++ page_block (page_number c)
          (join_block_texts (sort_blocks_reading_order
             (fst (classify_columns blocks (rect_width pg)))))
     ++ page_block (page_number c + 1)
          (join_block_texts (sort_blocks_reading_order
             (snd (classify_columns blocks (rect_width pg))))))
    (page_number c + 2)).
Proof.
  intros Hex Htwo. unfold process_page. rewrite Hex. cbn [obind].
  destruct (classify_columns blocks (rect_width pg)) as [l r].
  cbn [fst snd] in *. rewrite Htwo.
  rewrite <- app_assoc. do 2 f_equal. lia.
Qed.

Lemma process_page_single_column (c : converter) (pg : page) (blocks : list block) :
  extract_blocks pg = Return blocks ->
  is_two_column (fst (classify_columns blocks (rect_width pg)))
                (snd (classify_columns blocks (rect_width pg))) = false ->
  process_page c pg =
  obind (get_text pg) (fun t =>
    Return (with_output c
      (md_text c ++ page_block (page_number c) (strip t))
      (page_number c + 1))).
Proof.
  intros Hex Hone. unfold process_page. rewrite Hex. cbn [obind].
  destruct (classify_columns blocks (rect_width pg)) as [l r].
  cbn [fst snd] in *. rewrite Hone. reflexivity.
Qed.

Lemma emit_two (c : converter) (a b : pystr) :
  emit c [a; b] =
  with_output c
    (md_text c ++ page_block (page_number c) a
               ++ page_block (page_number c + 1) b)
    (page_number c + 2).
Proof.
  unfold emit, render, format_page. cbn. rewrite app_nil_r. reflexivity.
Qed.

Lemma emit_one (c : converter) (a : pystr) :
  emit c [a] =
  with_output c (md_text c ++ page_block (page_number c) a) (page_number c + 1).
Proof.
  unfold emit, render, format_page. cbn. rewrite app_nil_r. reflexivity.
Qed.

Lemma emit_nil (c : converter) : emit c [] = c.
Proof.
  destruct c. unfold emit, with_output, render. cbn.
  rewrite app_nil_r, Z.add_0_r. reflexivity.
Qed.

Lemma number_from_app (n : Z) (a b : list pystr) :
  number_from n (a ++ b) =
  number_from n a ++ number_from (n + Z.of_nat (length a)) b.
Proof.
  revert n. induction a as [|x a IH]; intros n.
  - cbn. rewrite Z.add_0_r. reflexivity.
  - cbn [app number_from length]. rewrite IH.
    replace (n + 1 + Z.of_nat (length a)) with (n + Z.of_nat (S (length a))) by lia.
    reflexivity.
Qed.

Lemma emit_app (c : converter) (a b : list pystr) :
  emit (emit c a) b = emit c (a ++ b).
Proof.
  unfold emit, with_output, render. cbn [md_text page_number pdf_file_path md_folder_path doc].
  rewrite number_from_app, map_app, concat_app, length_app, <- app_assoc.
  f_equal. lia.
Qed.

(** The loop body emits the logical pages of the specification. *)
Lemma process_page_bodies (c : converter) (pg : page) :
  process_page c pg = obind (page_bodies pg) (fun bodies => Return (emit c bodies)).
Proof.
  unfold page_bodies. destruct (extract_blocks pg) as [blocks | e] eqn:Hex.
  - cbn [obind].
    destruct (is_two_column (fst (classify_columns blocks (rect_width pg)))
                (snd (classify_columns blocks (rect_width pg)))) eqn:Htwo.
    + rewrite (process_page_two_column c pg blocks Hex Htwo).
      cbn [obind]. rewrite emit_two. reflexivity.
    + rewrite (process_page_single_column c pg blocks Hex Htwo).
      destruct (get_text pg) as [t | e]; cbn [obind]; [| reflexivity].
      rewrite emit_one. reflexivity.
  - unfold process_page. rewrite Hex. reflexivity.
Qed.

Lemma process_pages_bodies (c : converter) (pages : list page) :
  process_pages c pages =
  obind (document_bodies pages) (fun bodies => Return (emit c bodies)).
Proof.
  revert c. induction pages as [|pg pages IH]; intros c.
  - cbn. rewrite emit_nil. reflexivity.
  - cbn [process_pages document_bodies]. rewrite process_page_bodies.
    destruct (page_bodies pg) as [bodies | e]; cbn [obind]; [| reflexivity].
    rewrite IH. destruct (document_bodies pages) as [more | e]; cbn [obind];
      [| reflexivity].
    rewrite emit_app. reflexivity.
Qed.


Lemma page_bodies_length (pg : page) (bodies : list pystr) :
  page_bodies pg = Return bodies -> length bodies = 1%nat \/ length bodies = 2%nat.
Proof.
  unfold page_bodies. destruct (extract_blocks pg) as [blocks | e]; cbn [obind];
    [| discriminate].
  destruct (is_two_column _ _).
  - intros [= <-]. right. reflexivity.
  - destruct (get_text pg) as [t | e]; cbn [obind]; [| discriminate].
    intros [= <-]. left. reflexivity.
Qed.

(** C5. For the blocks extracted from a page, the page takes the
    two-column branch iff the left group and the right group both have at
    least two blocks; with fewer than two in either group it takes the
    single-column branch. *)
Theorem two_column_detection (c : converter) (pg : page) (blocks : list block) :
  extract_blocks pg = Return blocks ->
  let left_blocks := fst (classify_columns blocks (rect_width pg)) in
  let right_blocks := snd (classify_columns blocks (rect_width pg)) in
  (is_two_column left_blocks right_blocks = true <->
   (2 <= length left_blocks /\ 2 <= length right_blocks)%nat) /\
  (is_two_column left_blocks right_blocks = false <->
   (length left_blocks < 2 \/ length right_blocks < 2)%nat) /\
  ((2 <= length left_blocks /\ 2 <= length right_blocks)%nat ->
   process_page c pg =
   Return (with_output c
     (md_text c
      ++ page_block (page_number c)
           (join_block_texts (sort_blocks_reading_order left_blocks))
      ++ page_block (page_number c + 1)
           (join_block_texts (sort_blocks_reading_order right_blocks)))
     (page_number c + 2))) /\
  ((length left_blocks < 2 \/ length right_blocks < 2)%nat ->
   process_page c pg =
   obind (get_text pg) (fun t =>
     Return (with_output c
       (md_text c ++ page_block (page_number c) (strip t))
       (page_number c + 1)))).
Proof.
  intros Hex left_blocks right_blocks.
  split; [apply is_two_column_true |]. split; [apply is_two_column_false |].
  split; intros H.
  - apply is_two_column_true in H.
    exact (process_page_two_column c pg blocks Hex H).
  - apply is_two_column_false in H.
    exact (process_page_single_column c pg blocks Hex H).
Qed.

Lemma two_column_detection_witness :
  process_page (new_converter Samples.a_pdf Samples.out_dir []) Samples.facing_page =
  Return (Converter Samples.a_pdf Samples.out_dir []
            (page_block 1 (lit "l1" ++ newline ++ lit "l2" ++ newline ++ lit "l3")
             ++ page_block 2 (lit "r1" ++ newline ++ lit "r2" ++ newline ++ lit "r3"))
            3).
Proof.
  apply (two_column_detection
           (new_converter Samples.a_pdf Samples.out_dir []) Samples.facing_page
           (List.filter is_text_block Samples.facing_blocks) eq_refl).
  vm_compute. split; repeat constructor.
Defined.


(** A single-column page, a two-column page, a single-column page: the
    logical pages 1, 2-3, 4. *)
Example logical_page_numbers_1_23_4 :
  let pages := [Samples.plain_page; Samples.facing_page; Samples.empty_page] in
  exists c,
    process_pages (new_converter Samples.a_pdf Samples.out_dir pages) pages = Return c /\
    md_text c =
      page_block 1 (lit "title")
      ++ page_block 2 (lit "l1" ++ newline ++ lit "l2" ++ newline ++ lit "l3")
      ++ page_block 3 (lit "r1" ++ newline ++ lit "r2" ++ newline ++ lit "r3")
      ++ page_block 4 [] /\
    page_number c = 5.
Proof. eexists. split; [vm_compute; reflexivity | split; vm_compute; reflexivity]. Qed.



(** ** Paths *)

Lemma rpartition_absent (c : N) (p : pystr) :
  c ∉ p -> PosixPath.rpartition c p = None.
Proof.
  induction p as [|x p IH]; [reflexivity |].
  intros Hnot. apply not_elem_of_cons in Hnot as [Hne Hnot].
  cbn [PosixPath.rpartition]. rewrite (IH Hnot).
  destruct (N.eqb_spec x c); [congruence | reflexivity].
Qed.

Lemma rpartition_last (c : N) (a b : pystr) :
  c ∉ b -> PosixPath.rpartition c (a ++ c :: b) = Some (a, b).
Proof.
  intros Hb. induction a as [|x a IH].
  - cbn [app PosixPath.rpartition]. rewrite (rpartition_absent c b Hb).
    rewrite N.eqb_refl. reflexivity.
  - cbn [app PosixPath.rpartition]. rewrite IH. reflexivity.
Qed.

Lemma forallb_extsep_false (stem : pystr) :
  (exists ch, ch ∈ stem /\ ch <> PosixPath.extsep) ->
  forallb (N.eqb PosixPath.extsep) stem = false.
Proof.
  intros (ch & Hin & Hne). apply not_true_iff_false. intros Hall.
  rewrite forallb_forall in Hall. apply list_elem_of_In in Hin.
  specialize (Hall ch Hin). apply N.eqb_eq in Hall. congruence.
Qed.

(** The base name of [folder/stem.pdf] is [stem]. *)
Lemma base_name_pdf (folder stem : pystr) :
  PosixPath.sep ∉ stem ->
  (exists ch, ch ∈ stem /\ ch <> PosixPath.extsep) ->
  PosixPath.splitext_root
    (PosixPath.basename (folder ++ [PosixPath.sep] ++ stem ++ lit ".pdf")) = stem.
Proof.
  intros Hsep Hdot.
  assert (Hname : PosixPath.sep ∉ stem ++ lit ".pdf").
  { rewrite elem_of_app. intros [H | H]; [contradiction |].
    vm_compute in H. repeat (apply elem_of_cons in H as [H | H]; [discriminate |]).
    inversion H. }
  unfold PosixPath.basename. cbn [app].
  rewrite (rpartition_last _ folder _ Hname).
  unfold PosixPath.splitext_root.
  rewrite (rpartition_absent _ _ Hname).
  change (stem ++ lit ".pdf") with (stem ++ PosixPath.extsep :: lit "pdf").
  rewrite rpartition_last.
  - rewrite (forallb_extsep_false stem Hdot). reflexivity.
  - intros H. vm_compute in H.
    repeat (apply elem_of_cons in H as [H | H]; [discriminate |]).
    inversion H.
Qed.

Example preprocessed_path_a :
  preprocessed_path (new_converter Samples.a_pdf Samples.out_dir []) = Samples.a_md.
Proof. reflexivity. Qed.

(** [splitext] leaves a name made of leading dots and an extension whole. *)
Example splitext_root_dots :
  PosixPath.splitext_root (lit "...pdf") = lit "...pdf" /\
  PosixPath.splitext_root (lit "dir.d/a.b.pdf") = lit "dir.d/a.b" /\
  PosixPath.splitext_root (lit "dir.d/ab") = lit "dir.d/ab".
Proof. repeat split; reflexivity. Qed.

(** ** process: the output file *)

Lemma process_run (E : env) (c c' : converter) (w : world) :
  process_pages c (doc c) = Return c' ->
  process E c w = write_file E (preprocessed_path c') (md_text c') w.
Proof. intros H. unfold process, bind, lift. rewrite H. reflexivity. Qed.

Lemma process_page_error (E : env) (c : converter) (w : world) (e : exn) :
  process_pages c (doc c) = Raise e -> process E c w = (w, Raise e).
Proof. intros H. unfold process, bind, lift. rewrite H. reflexivity. Qed.

Lemma preprocessed_path_emit (c : converter) (bodies : list pystr) :
  preprocessed_path (emit c bodies) = preprocessed_path c.
Proof. reflexivity. Qed.

(** C2, as the code has it.  For a document [folder/stem.pdf] whose pages
    all decode and whose output can be written, [process] writes one file,
    [stem.md] in the output folder; it holds the blocks of the emitted
    logical pages in their order, and the block of a logical page is
    ["## ページ {number}\n\n{body}\n\n"]. *)
Theorem process_writes_markdown (E : env) (c : converter) (w : world)
    (folder stem : pystr) (bodies : list pystr) :
  pdf_file_path c = folder ++ [PosixPath.sep] ++ stem ++ lit ".pdf" ->
  PosixPath.sep ∉ stem ->
  (exists ch, ch ∈ stem /\ ch <> PosixPath.extsep) ->
  document_bodies (doc c) = Return bodies ->
  let target := PosixPath.join (md_folder_path c) (stem ++ lit ".md") in
  open_w E target = WriteOk ->
  process E c w =
    (World (<[target := md_text c ++ render (number_from (page_number c) bodies)]> (fs w))
           (log w ++ [InfoWritten target]),
     Return tt) /\
  (forall lp,
     format_page lp =
     lit "## " ++ [12506; 12540; 12472]%N ++ lit " " ++ of_int (number lp)
     ++ [10; 10]%N ++ body lp ++ [10; 10]%N) /\
  (forall a b rest,
     render (LogicalPage a b :: rest) = format_page (LogicalPage a b) ++ render rest).
Proof.
  intros Hpath Hsep Hdot Hbodies target Hopen.
  assert (Htarget : preprocessed_path c = target).
  { unfold preprocessed_path. rewrite Hpath, (base_name_pdf folder stem Hsep Hdot).
    reflexivity. }
  split; [| split].
  - rewrite (process_run E c (emit c bodies)).
    + rewrite preprocessed_path_emit, Htarget. unfold write_file.
      rewrite Hopen. reflexivity.
    + rewrite process_pages_bodies, Hbodies. reflexivity.
  - intros lp. unfold format_page, page_block, page_heading, newline.
    rewrite <- !app_assoc. reflexivity.
  - reflexivity.
Qed.

Lemma process_writes_markdown_witness :
  process Samples.env_ok
    (new_converter Samples.a_pdf Samples.out_dir [Samples.empty_page])
    Samples.empty_world =
  (World (<[Samples.a_md := page_block 1 []]> ∅) [InfoWritten Samples.a_md],
   Return tt).
Proof.
  apply (process_writes_markdown Samples.env_ok
           (new_converter Samples.a_pdf Samples.out_dir [Samples.empty_page])
           Samples.empty_world (lit "./input_data/documents") (lit "a") [[]]).
  - reflexivity.
  - vm_compute. intros H. inversion H as [| ? ? ? H']. inversion H'.
  - exists 97%N. split; [vm_compute; constructor | discriminate].
  - reflexivity.
  - reflexivity.
Defined.

(** C2 as worded fails: the heading the code writes is not ["## Page "].
    The one-page document [a.pdf] is written as ["## ページ 1\n\n\n\n"]. *)
Lemma page_heading_counterexample :
  exists w',
    process Samples.env_ok
      (new_converter Samples.a_pdf Samples.out_dir [Samples.empty_page])
      Samples.empty_world = (w', Return tt) /\
    fs w' !! Samples.a_md =
      Some ([35; 35; 32; 12506; 12540; 12472; 32; 49; 10; 10; 10; 10]%N) /\
    fs w' !! Samples.a_md <> Some (worded_page_block 1 []).
Proof.
  exists (World (<[Samples.a_md := page_block 1 []]> ∅) [InfoWritten Samples.a_md]).
  split; [reflexivity |].
  cbn [fs]. rewrite lookup_insert_eq. split; [reflexivity | discriminate].
Qed.

(** C3, as the code has it.  An error while writing the output is logged
    and raised again, never swallowed, and nothing is written before every
    page has been assembled.  A page that fails and an [open] that fails
    leave the files as they were; a write that fails after [open] succeeded
    leaves the output file in place, holding the characters written so far. *)
Theorem write_failure_raised (E : env) (c : converter) (w : world) :
  match process_pages c (doc c) with
  | Raise e => process E c w = (w, Raise e)
  | Return c' =>
      let target := preprocessed_path c' in
      match open_w E target with
      | WriteOk =>
          process E c w =
          (World (<[target := md_text c']> (fs w)) (log w ++ [InfoWritten target]),
           Return tt)
      | OpenFails e =>
          process E c w =
          (World (fs w) (log w ++ [ErrorWriteFailed target e]), Raise e)
      | WriteFails n e =>
          process E c w =
          (World (<[target := take n (md_text c')]> (fs w))
                 (log w ++ [ErrorWriteFailed target e]),
           Raise e)
      end
  end.
Proof.
  destruct (process_pages c (doc c)) as [c' | e] eqn:Hpages.
  - rewrite (process_run E c c' w Hpages). unfold write_file. cbn zeta.
    destruct (open_w E (preprocessed_path c')) as [| e | n e]; reflexivity.
  - apply process_page_error. exact Hpages.
Qed.

(** A page that cannot be decoded: the error is raised and no file is
    written. *)
Example broken_page_no_file :
  process Samples.env_ok
    (new_converter Samples.a_pdf Samples.out_dir
       [Samples.empty_page; Samples.broken_page; Samples.empty_page])
    Samples.empty_world = (Samples.empty_world, Raise RuntimeError).
Proof. reflexivity. Qed.

(** C3 as worded fails: after a failed write the output file can exist,
    with part of the text.  Writing [a.md] fails after five characters. *)
Lemma write_failure_counterexample :
  exists w',
    process Samples.env_write_fails
      (new_converter Samples.a_pdf Samples.out_dir [Samples.empty_page])
      Samples.empty_world = (w', Raise OSError) /\
    fs Samples.empty_world !! Samples.a_md = None /\
    fs w' !! Samples.a_md = Some ([35; 35; 32; 12506; 12540]%N) /\
    fs w' !! Samples.a_md <> None.
Proof.
  exists (World (<[Samples.a_md := [35; 35; 32; 12506; 12540]%N]> ∅)
            [ErrorWriteFailed Samples.a_md OSError]).
  split; [reflexivity |]. cbn [fs Samples.empty_world].
  rewrite lookup_empty, lookup_insert_eq. repeat split; discriminate.
Qed.

(** ** process_all: the batch *)

Lemma process_files_app (E : env) (out : path) (pre post : list path) (w w1 : world) :
  process_files E pre out w = (w1, Return tt) ->
  process_files E (pre ++ post) out w = process_files E post out w1.
Proof.
  revert w. induction pre as [|p pre IH]; intros w; cbn [app process_files].
  - unfold ret. intros [= ->]. reflexivity.
  - unfold bind. destruct (process_file E p out w) as [w' [[] | e]].
    + apply IH.
    + discriminate.
Qed.

Lemma process_files_raise (E : env) (out p : path) (post : list path)
    (w w' : world) (e : exn) :
  process_file E p out w = (w', Raise e) ->
  process_files E (p :: post) out w = (w', Raise e).
Proof. intros H. cbn [process_files]. unfold bind. rewrite H. reflexivity. Qed.

(** C1 as worded fails: [a.pdf] cannot be opened, and [b.pdf], which would
    be processed without error, is never reached. *)
Lemma batch_independence_counterexample :
  exists w' wb,
    process_all Samples.env_open_fails (lit "./input_data/documents/")
      Samples.out_dir Samples.empty_world = (w', Raise FileDataError) /\
    log w' = [InfoSeparator; InfoProcessing Samples.a_pdf;
              ErrorOpenFailed Samples.a_pdf FileDataError] /\
    fs w' !! Samples.b_md = None /\
    process_file Samples.env_open_fails Samples.b_pdf Samples.out_dir
      Samples.empty_world = (wb, Return tt) /\
    fs wb !! Samples.b_md = Some (page_block 1 []).
Proof.
  exists (World ∅ [InfoSeparator; InfoProcessing Samples.a_pdf;
                   ErrorOpenFailed Samples.a_pdf FileDataError]).
  exists (World (<[Samples.b_md := page_block 1 []]> ∅)
            [InfoSeparator; InfoProcessing Samples.b_pdf;
             InfoOpened Samples.b_pdf; InfoWritten Samples.b_md]).
  split; [reflexivity |]. split; [reflexivity |].
  split; [apply lookup_empty |]. split; [reflexivity |].
  cbn [fs]. apply lookup_insert_eq.
Qed.

(** * Further properties of the converter *)

(** ** The output path *)

Lemma rpartition_some (c : N) (p a b : pystr) :
  PosixPath.rpartition c p = Some (a, b) -> p = a ++ c :: b /\ c ∉ b.
Proof.
  revert a b. induction p as [|x p IH]; intros a b; cbn [PosixPath.rpartition];
    [discriminate |].
  destruct (PosixPath.rpartition c p) as [[a' b'] |] eqn:Hr.
  - intros [= <- <-]. destruct (IH a' b' eq_refl) as [-> Hnot].
    split; [reflexivity | exact Hnot].
  - destruct (N.eqb_spec x c) as [-> | Hne]; [| discriminate].
    intros [= <- <-]. split; [reflexivity |].
    clear IH. induction p as [|y p IHp]; [apply not_elem_of_nil |].
    cbn [PosixPath.rpartition] in Hr.
    destruct (PosixPath.rpartition c p) as [[a' b'] |]; [discriminate |].
    destruct (N.eqb_spec y c); [discriminate |].
    apply not_elem_of_cons. split; [congruence | apply IHp; reflexivity].
Qed.

Lemma basename_no_sep (p : pystr) : PosixPath.sep ∉ PosixPath.basename p.
Proof.
  unfold PosixPath.basename.
  destruct (PosixPath.rpartition PosixPath.sep p) as [[a b] |] eqn:Hr.
  - apply rpartition_some in Hr. tauto.
  - clear -Hr. induction p as [|y p IHp]; [apply not_elem_of_nil |].
    cbn [PosixPath.rpartition] in Hr.
    destruct (PosixPath.rpartition PosixPath.sep p) as [[a' b'] |]; [discriminate |].
    destruct (N.eqb_spec y PosixPath.sep); [discriminate |].
    apply not_elem_of_cons. split; [congruence | apply IHp; reflexivity].
Qed.

Lemma splitext_root_no_sep (p : pystr) :
  PosixPath.sep ∉ p -> PosixPath.sep ∉ PosixPath.splitext_root p.
Proof.
  intros Hp. unfold PosixPath.splitext_root.
  rewrite (rpartition_absent _ _ Hp).
  destruct (PosixPath.rpartition PosixPath.extsep p) as [[stem ext] |] eqn:Hr;
    [| exact Hp].
  destruct (forallb (N.eqb PosixPath.extsep) stem); [exact Hp |].
  apply rpartition_some in Hr as [-> _]. cbn [app].
  intros Hin. apply Hp. apply elem_of_app. left. exact Hin.
Qed.

(** [os.path.join] with a second part that does not start with a slash
    keeps the first part and adds at most one slash. *)
Lemma join_relative (a b : pystr) :
  head b <> Some PosixPath.sep ->
  exists glue,
    (glue = [] \/ glue = [PosixPath.sep]) /\
    PosixPath.join a b = a ++ glue ++ b /\
    forall b', head b' <> Some PosixPath.sep ->
               PosixPath.join a b' = a ++ glue ++ b'.
Proof.
  intros Hb.
  assert (Hrel : forall x, head x <> Some PosixPath.sep ->
            match x with c :: _ => (c =? PosixPath.sep)%N | [] => false end = false).
  { intros [|c x] Hx; [reflexivity |]. cbn in Hx.
    destruct (N.eqb_spec c PosixPath.sep) as [-> | ?]; [congruence | reflexivity]. }
  unfold PosixPath.join. destruct (last a) as [d |] eqn:Hlast.
  - destruct (d =? PosixPath.sep)%N.
    + exists []. split; [auto |]. split; [rewrite (Hrel b Hb); reflexivity |].
      intros b' Hb'. rewrite (Hrel b' Hb'). reflexivity.
    + exists [PosixPath.sep]. split; [auto |].
      split; [rewrite (Hrel b Hb); reflexivity |].
      intros b' Hb'. rewrite (Hrel b' Hb'). reflexivity.
  - exists []. split; [auto |]. split; [rewrite (Hrel b Hb); reflexivity |].
    intros b' Hb'. rewrite (Hrel b' Hb'). reflexivity.
Qed.

Lemma md_name_relative (base : pystr) :
  PosixPath.sep ∉ base -> head (base ++ lit ".md") <> Some PosixPath.sep.
Proof.
  intros Hbase. destruct base as [|c base]; [discriminate |].
  cbn. intros [= ->]. apply Hbase. left.
Qed.

(** X1. Whatever the path of the PDF, the output path is the output
    folder, at most one added slash, a base name without a slash, and
    [".md"]: [process] never writes outside the folder it was given. *)
Theorem preprocessed_path_in_folder (c : converter) :
  exists glue base,
    (glue = [] \/ glue = [PosixPath.sep]) /\
    (PosixPath.sep ∉ base) /\
    preprocessed_path c = md_folder_path c ++ glue ++ base ++ lit ".md".
Proof.
  unfold preprocessed_path.
  set (base := PosixPath.splitext_root (PosixPath.basename (pdf_file_path c))).
  assert (Hbase : PosixPath.sep ∉ base)
    by (apply splitext_root_no_sep, basename_no_sep).
  destruct (join_relative (md_folder_path c) (base ++ md_suffix)
              (md_name_relative base Hbase)) as (glue & Hglue & Hjoin & _).
  exists glue, base. auto.
Qed.

(** X2. Two documents of a folder with different names get different
    output files: no document of a batch overwrites another's output. *)
Theorem distinct_documents_distinct_outputs
    (out folder s1 s2 : pystr) (d1 d2 : document) :
  PosixPath.sep ∉ s1 -> PosixPath.sep ∉ s2 ->
  (exists ch, ch ∈ s1 /\ ch <> PosixPath.extsep) ->
  (exists ch, ch ∈ s2 /\ ch <> PosixPath.extsep) ->
  s1 <> s2 ->
  preprocessed_path
    (new_converter (folder ++ [PosixPath.sep] ++ s1 ++ lit ".pdf") out d1) <>
  preprocessed_path
    (new_converter (folder ++ [PosixPath.sep] ++ s2 ++ lit ".pdf") out d2).
Proof.
  intros Hs1 Hs2 Hd1 Hd2 Hne. unfold preprocessed_path, new_converter.
  cbn [pdf_file_path md_folder_path].
  rewrite (base_name_pdf folder s1 Hs1 Hd1), (base_name_pdf folder s2 Hs2 Hd2).
  destruct (join_relative out (s1 ++ md_suffix) (md_name_relative s1 Hs1))
    as (glue & _ & Hj1 & Hj).
  rewrite Hj1, (Hj (s2 ++ md_suffix) (md_name_relative s2 Hs2)).
  intros Heq. apply Hne.
  apply app_inv_head in Heq. apply app_inv_head in Heq.
  apply app_inv_tail in Heq. exact Heq.
Qed.

Lemma distinct_documents_distinct_outputs_witness :
  preprocessed_path (new_converter Samples.a_pdf Samples.out_dir []) <>
  preprocessed_path (new_converter Samples.b_pdf Samples.out_dir []).
Proof.
  apply (distinct_documents_distinct_outputs Samples.out_dir
           (lit "./input_data/documents") (lit "a") (lit "b") [] []).
  - vm_compute. intros H. inversion H as [| ? ? ? H']. inversion H'.
  - vm_compute. intros H. inversion H as [| ? ? ? H']. inversion H'.
  - exists 97%N. split; [vm_compute; constructor | discriminate].
  - exists 98%N. split; [vm_compute; constructor | discriminate].
  - discriminate.
Defined.

(** ** The page loop *)

Lemma process_pages_app (c : converter) (pre post : list page) :
  process_pages c (pre ++ post) =
  obind (process_pages c pre) (fun c' => process_pages c' post).
Proof.
  revert c. induction pre as [|pg pre IH]; intros c; [reflexivity |].
  cbn [app process_pages]. destruct (process_page c pg) as [c1 | e];
    cbn [obind]; [apply IH | reflexivity].
Qed.

Lemma process_pages_emit (c c' : converter) (pages : list page) :
  process_pages c pages = Return c' ->
  exists bodies,
    document_bodies pages = Return bodies /\ c' = emit c bodies.
Proof.
  rewrite process_pages_bodies.
  destruct (document_bodies pages) as [bodies | e]; cbn [obind];
    [| discriminate].
  intros [= <-]. exists bodies. auto.
Qed.

Lemma document_bodies_length (pages : list page) (bodies : list pystr) :
  document_bodies pages = Return bodies ->
  (length pages <= length bodies <= 2 * length pages)%nat.
Proof.
  revert bodies. induction pages as [|pg pages IH]; intros bodies;
    cbn [document_bodies].
  - intros [= <-]. cbn. lia.
  - destruct (page_bodies pg) as [b | e] eqn:Hpg; cbn [obind]; [| discriminate].
    destruct (document_bodies pages) as [more | e]; cbn [obind]; [| discriminate].
    intros [= <-]. specialize (IH more eq_refl).
    apply page_bodies_length in Hpg. rewrite length_app. cbn [length]. lia.
Qed.

(** X3. A page that cannot be decoded ends the loop with its error,
    whatever pages follow it; [process] then raises the error without
    writing an output file and without an info- or error-level record.
    (The debug records of the pages handled so far are in the log file,
    which the world does not hold.) *)
Theorem page_failure_aborts_document (E : env) (c c1 : converter) (w : world)
    (pre : list page) (pg : page) (post : list page) (e : exn) :
  doc c = pre ++ pg :: post ->
  process_pages c pre = Return c1 ->
  process_page c1 pg = Raise e ->
  process_pages c (doc c) = Raise e /\
  process E c w = (w, Raise e).
Proof.
  intros Hdoc Hpre Hpg.
  assert (Hall : process_pages c (doc c) = Raise e).
  { rewrite Hdoc, process_pages_app, Hpre. cbn [obind process_pages].
    rewrite Hpg. reflexivity. }
  split; [exact Hall | apply process_page_error; exact Hall].
Qed.

Lemma page_failure_aborts_document_witness :
  let pages := [Samples.empty_page; Samples.broken_page; Samples.facing_page] in
  process_pages (new_converter Samples.a_pdf Samples.out_dir pages) pages =
    Raise RuntimeError /\
  process Samples.env_ok (new_converter Samples.a_pdf Samples.out_dir pages)
    Samples.empty_world = (Samples.empty_world, Raise RuntimeError).
Proof.
  apply (page_failure_aborts_document Samples.env_ok
           (new_converter Samples.a_pdf Samples.out_dir
              [Samples.empty_page; Samples.broken_page; Samples.facing_page])
           (Converter Samples.a_pdf Samples.out_dir
              [Samples.empty_page; Samples.broken_page; Samples.facing_page]
              (page_block 1 []) 2)
           Samples.empty_world
           [Samples.empty_page] Samples.broken_page [Samples.facing_page]).
  - reflexivity.
  - reflexivity.
  - reflexivity.
Defined.

(** X4. A document of [n] pages that decodes advances the page counter by
    at least [n] and at most [2 n]: every physical page gives one or two
    logical pages. *)
Theorem logical_page_count_bounds (c c' : converter) (pages : list page) :
  process_pages c pages = Return c' ->
  Z.of_nat (length pages) <= page_number c' - page_number c
    <= 2 * Z.of_nat (length pages).
Proof.
  intros H. apply process_pages_emit in H as (bodies & Hb & ->).
  apply document_bodies_length in Hb. unfold emit, with_output.
  cbn [page_number]. lia.
Qed.

Lemma logical_page_count_bounds_witness :
  3 <= 5 - 1 <= 2 * 3.
Proof.
  exact (logical_page_count_bounds
           (new_converter Samples.a_pdf Samples.out_dir [])
           (Converter Samples.a_pdf Samples.out_dir []
              (page_block 1 (lit "title")
               ++ page_block 2 (lit "l1" ++ newline ++ lit "l2" ++ newline ++ lit "l3")
               ++ page_block 3 (lit "r1" ++ newline ++ lit "r2" ++ newline ++ lit "r3")
               ++ page_block 4 [])
              5)
           [Samples.plain_page; Samples.facing_page; Samples.empty_page]
           eq_refl).
Defined.

(** X5. The loop only appends: the text assembled before it is a prefix
    of the text after it, the counter does not decrease, and the source
    path, the output folder and the document of the converter stay as they
    were. *)
Theorem process_pages_appends (c c' : converter) (pages : list page) :
  process_pages c pages = Return c' ->
  (exists added, md_text c' = md_text c ++ added) /\
  page_number c <= page_number c' /\
  pdf_file_path c' = pdf_file_path c /\
  md_folder_path c' = md_folder_path c /\
  doc c' = doc c.
Proof.
  intros H. apply process_pages_emit in H as (bodies & _ & ->).
  unfold emit, with_output. cbn [md_text page_number pdf_file_path md_folder_path doc].
  split; [eexists; reflexivity |]. split; [lia |]. auto.
Qed.

Lemma process_pages_appends_witness :
  let c := Converter Samples.a_pdf Samples.out_dir [] (lit "kept") 7 in
  let c' := Converter Samples.a_pdf Samples.out_dir []
              (lit "kept" ++ page_block 7 (lit "title")) 8 in
  (exists added, md_text c' = md_text c ++ added) /\
  page_number c <= page_number c' /\
  pdf_file_path c' = pdf_file_path c /\
  md_folder_path c' = md_folder_path c /\
  doc c' = doc c.
Proof.
  exact (process_pages_appends
           (Converter Samples.a_pdf Samples.out_dir [] (lit "kept") 7)
           (Converter Samples.a_pdf Samples.out_dir []
              (lit "kept" ++ page_block 7 (lit "title")) 8)
           [Samples.plain_page] eq_refl).
Defined.

(** ** Reading order *)

Lemma sort_reading_perm (l : list block) : sort_blocks_reading_order l ≡ₚ l.
Proof.
  unfold sort_blocks_reading_order, sorted.
  induction l as [|x l IH]; cbn [fold_right]; [reflexivity |].
  rewrite insert_by_perm, IH. reflexivity.
Qed.

Lemma sort_reading_sorted (l : list block) :
  StronglySorted key_le (sort_blocks_reading_order l).
Proof.
  apply Sorted_StronglySorted; [exact key_le_trans |].
  unfold sort_blocks_reading_order, sorted.
  induction l as [|x l IH]; cbn [fold_right]; [constructor |].
  apply insert_by_Sorted. exact IH.
Qed.

Lemma sort_reading_filter (k : Q * Q) (l : list block) :
  filter (has_key k) (sort_blocks_reading_order l) = filter (has_key k) l.
Proof.
  unfold sort_blocks_reading_order, sorted.
  induction l as [|x l IH]; cbn [fold_right]; [reflexivity |].
  rewrite insert_by_filter, !filter_cons, IH. reflexivity.
Qed.

(** X6. Blocks that already are in reading order come back unchanged, so
    sorting twice is sorting once. *)
Theorem sort_blocks_reading_order_idempotent (blocks : list block) :
  (StronglySorted key_le blocks -> sort_blocks_reading_order blocks = blocks) /\
  sort_blocks_reading_order (sort_blocks_reading_order blocks) =
  sort_blocks_reading_order blocks.
Proof.
  assert (Hfix : forall l, StronglySorted key_le l ->
                           sort_blocks_reading_order l = l).
  { intros l Hl. apply stable_sorted_unique;
      [apply sort_reading_sorted | exact Hl |].
    intros k. apply sort_reading_filter. }
  split; [apply Hfix | apply Hfix, sort_reading_sorted].
Qed.

(** X7. When no two blocks share [(y0, x0)], the reading order does not
    depend on the order in which the decoder lists the blocks. *)
Theorem sort_blocks_reading_order_order_independent (l1 l2 : list block) :
  l1 ≡ₚ l2 ->
  (forall k, (length (filter (has_key k) l1) <= 1)%nat) ->
  sort_blocks_reading_order l1 = sort_blocks_reading_order l2.
Proof.
  intros Hperm Hdistinct.
  apply stable_sorted_unique; [apply sort_reading_sorted .. |].
  intros k. rewrite !sort_reading_filter.
  assert (Hk : filter (has_key k) l1 ≡ₚ filter (has_key k) l2)
    by (rewrite Hperm; reflexivity).
  specialize (Hdistinct k).
  destruct (filter (has_key k) l1) as [|a [|a' t]].
  - apply Permutation_nil_l in Hk. congruence.
  - apply Permutation_singleton_l in Hk. congruence.
  - cbn in Hdistinct. lia.
Qed.

Lemma sort_blocks_reading_order_order_independent_witness :
  sort_blocks_reading_order
    [Samples.text_block 5 50 "c"; Samples.text_block 60 10 "b";
     Samples.text_block 5 10 "a"] =
  sort_blocks_reading_order
    [Samples.text_block 5 10 "a"; Samples.text_block 5 50 "c";
     Samples.text_block 60 10 "b"].
Proof.
  apply sort_blocks_reading_order_order_independent.
  - apply (Permutation_cons_app [Samples.text_block 5 10 "a"]
             [Samples.text_block 60 10 "b"]).
    apply perm_swap.
  - intros [ky kx]. rewrite !filter_cons, filter_nil.
    repeat match goal with
           | |- context [decide ?P] => destruct (decide P) as [[? ?] | _]
           end; cbn [length fst snd Samples.text_block y0 x0] in *;
      try lia; exfalso; lra.
Defined.

(** ** Columns and layout *)

Lemma filter_bool_length_perm {A} (f : A -> bool) (l l' : list A) :
  l ≡ₚ l' -> length (List.filter f l) = length (List.filter f l').
Proof.
  induction 1 as [| x l l' _ IH | x y l | l l' l'' _ IH1 _ IH2]; cbn.
  - reflexivity.
  - destruct (f x); cbn; congruence.
  - destruct (f x), (f y); reflexivity.
  - congruence.
Qed.

Lemma classify_columns_lengths (blocks : list block) (w : Q) :
  (length (fst (classify_columns blocks w))
   + length (snd (classify_columns blocks w)) = length blocks)%nat.
Proof.
  rewrite classify_columns_filter. cbn [fst snd].
  rewrite <- length_app. symmetry. apply Permutation_length.
  apply filter_bool_partition.
Qed.

(** X8. Classifying a list in two parts and joining the groups gives the
    groups of the whole list: the loop treats each block on its own. *)
Theorem classify_columns_app (a b : list block) (page_width : Q) :
  classify_columns (a ++ b) page_width =
  (fst (classify_columns a page_width) ++ fst (classify_columns b page_width),
   snd (classify_columns a page_width) ++ snd (classify_columns b page_width)).
Proof.
  rewrite !classify_columns_filter. cbn [fst snd].
  rewrite !List.filter_app. reflexivity.
Qed.

(** X9. Where the midpoint of a block and the half width of the page
    are computed without rounding: a block that lies wholly left of the
    middle of the page goes to the left group, one that lies wholly at or
    right of the middle goes to the right group. *)
Theorem classify_columns_by_position (blocks : list block) (page_width : Q)
    (b : block) :
  b ∈ blocks ->
  (x0 b <= x1 b)%Q ->
  float_exact (center b) ((x0 b + x1 b) / 2) ->
  float_exact (Float64.div2 (Float64.Finite page_width)) (page_width / 2) ->
  ((x1 b < page_width / 2)%Q ->
   b ∈ fst (classify_columns blocks page_width)) /\
  ((page_width / 2 <= x0 b)%Q ->
   b ∈ snd (classify_columns blocks page_width)).
Proof.
  intros Hin Hbox Hc Hw. rewrite classify_columns_filter. cbn [fst snd].
  rewrite !list_elem_of_In, !filter_In, <- !list_elem_of_In.
  rewrite is_left_spec, is_right_spec. unfold left_of_centre.
  fold (center b). rewrite (float_exact_lt _ _ _ _ Hc Hw).
  split; intros Hside; (split; [exact Hin |]).
  - unfold Qdiv in *. change (/ 2)%Q with (1 # 2)%Q in *. lra.
  - apply Qle_not_lt. unfold Qdiv in *. change (/ 2)%Q with (1 # 2)%Q in *. lra.
Qed.

Lemma classify_columns_by_position_witness :
  (Samples.text_block 5 10 " l1" ∈
     fst (classify_columns Samples.facing_blocks 600)) /\
  (Samples.text_block 305 10 "r1" ∈
     snd (classify_columns Samples.facing_blocks 600)).
Proof.
  split.
  - apply (classify_columns_by_position Samples.facing_blocks 600
             (Samples.text_block 5 10 " l1")).
    + do 4 right. left.
    + vm_compute. discriminate.
    + vm_compute. reflexivity.
    + vm_compute. reflexivity.
    + reflexivity.
  - apply (classify_columns_by_position Samples.facing_blocks 600
             (Samples.text_block 305 10 "r1")).
    + do 5 right. left.
    + vm_compute. discriminate.
    + vm_compute. reflexivity.
    + vm_compute. reflexivity.
    + vm_compute. discriminate.
Defined.

(** X10. Whether a page is two-column does not depend on the order in
    which the decoder lists its blocks. *)
Theorem layout_order_independent (blocks blocks' : list block) (page_width : Q) :
  blocks ≡ₚ blocks' ->
  is_two_column (fst (classify_columns blocks page_width))
                (snd (classify_columns blocks page_width)) =
  is_two_column (fst (classify_columns blocks' page_width))
                (snd (classify_columns blocks' page_width)).
Proof.
  intros Hperm. rewrite !classify_columns_filter. cbn [fst snd].
  unfold is_two_column.
  rewrite (filter_bool_length_perm (is_left page_width) _ _ Hperm).
  rewrite (filter_bool_length_perm (fun b => negb (is_left page_width b)) _ _ Hperm).
  reflexivity.
Qed.

Lemma layout_order_independent_witness :
  is_two_column (fst (classify_columns Samples.facing_blocks 600))
                (snd (classify_columns Samples.facing_blocks 600)) =
  is_two_column (fst (classify_columns (rev Samples.facing_blocks) 600))
                (snd (classify_columns (rev Samples.facing_blocks) 600)).
Proof.
  apply layout_order_independent. apply Permutation_rev.
Defined.

(** X11. A page with fewer than four text blocks is never two-column:
    its text is the [strip]ped whole-page text, or the error of
    [page.get_text()]. *)
Theorem few_blocks_single_column (c : converter) (pg : page) (blocks : list block) :
  extract_blocks pg = Return blocks ->
  (length blocks < 4)%nat ->
  process_page c pg =
  obind (get_text pg) (fun t =>
    Return (with_output c
      (md_text c ++ page_block (page_number c) (strip t))
      (page_number c + 1))).
Proof.
  intros Hex Hlen. apply (process_page_single_column c pg blocks Hex).
  apply is_two_column_false.
  pose proof (classify_columns_lengths blocks (rect_width pg)). lia.
Qed.

Lemma few_blocks_single_column_witness :
  process_page (new_converter Samples.a_pdf Samples.out_dir []) Samples.plain_page =
  Return (Converter Samples.a_pdf Samples.out_dir [] (page_block 1 (lit "title")) 2).
Proof.
  apply (few_blocks_single_column
           (new_converter Samples.a_pdf Samples.out_dir []) Samples.plain_page
           [Samples.text_block 5 10 "title"]).
  - reflexivity.
  - cbn. lia.
Defined.

(** X12. A two-column page never consults [page.get_text()]: two pages
    with the same width and the same blocks give the same result, and a
    failing [page.get_text()] does not fail the page. *)
Theorem two_column_ignores_page_text (c : converter) (pg pg' : page)
    (blocks : list block) :
  rect_width pg = rect_width pg' ->
  get_text_blocks pg = get_text_blocks pg' ->
  extract_blocks pg = Return blocks ->
  is_two_column (fst (classify_columns blocks (rect_width pg)))
                (snd (classify_columns blocks (rect_width pg))) = true ->
  process_page c pg = process_page c pg' /\
  exists c', process_page c pg' = Return c'.
Proof.
  intros Hw Hb Hex Htwo.
  assert (Hex' : extract_blocks pg' = Return blocks)
    by (unfold extract_blocks in *; rewrite <- Hb; exact Hex).
  rewrite (process_page_two_column c pg blocks Hex Htwo).
  rewrite Hw in Htwo |- *.
  rewrite (process_page_two_column c pg' blocks Hex' Htwo).
  split; [reflexivity | eexists; reflexivity].
Qed.

Lemma two_column_ignores_page_text_witness :
  let pg' := Page 600 (Return Samples.facing_blocks) (Raise RuntimeError) in
  process_page (new_converter Samples.a_pdf Samples.out_dir []) Samples.facing_page =
  process_page (new_converter Samples.a_pdf Samples.out_dir []) pg' /\
  exists c',
    process_page (new_converter Samples.a_pdf Samples.out_dir []) pg' = Return c'.
Proof.
  apply (two_column_ignores_page_text
           (new_converter Samples.a_pdf Samples.out_dir []) Samples.facing_page
           (Page 600 (Return Samples.facing_blocks) (Raise RuntimeError))
           (List.filter is_text_block Samples.facing_blocks)).
  - reflexivity.
  - reflexivity.
  - reflexivity.
  - reflexivity.
Defined.

(** X13. On blocks that passed [extract_blocks] the filter of
    [join_block_texts] drops nothing: the text of a column has one piece
    for each of its blocks. *)
Theorem join_block_texts_keeps_fragments (blocks : list block) :
  Forall text_fragment blocks ->
  join_block_texts blocks =
  PyStr.join newline (List.map (fun b => strip (text b)) blocks).
Proof.
  intros Hall. unfold join_block_texts. f_equal. f_equal.
  induction Hall as [|b blocks Hb _ IH]; [reflexivity |].
  cbn [List.filter]. destruct Hb as (_ & _ & Hne).
  apply truthy_true in Hne. rewrite Hne, IH. reflexivity.
Qed.

Lemma join_block_texts_keeps_fragments_witness :
  join_block_texts
    [Samples.text_block 5 10 " l1"; Samples.text_block 60 10 "l2 "] =
  PyStr.join newline [lit "l1"; lit "l2"].
Proof.
  apply (join_block_texts_keeps_fragments
           [Samples.text_block 5 10 " l1"; Samples.text_block 60 10 "l2 "]).
  repeat constructor; try (eexists; reflexivity); discriminate.
Defined.

(** ** The batch *)

(** What processing one file does to a world does not depend on the
    world: it appends fixed log records, writes at most the output file of
    the document, and ends in a fixed outcome. *)
Lemma process_file_shape (E : env) (p out : path) :
  exists (upd : option pystr) (recs : list log_record) (r : outcome unit),
    forall w,
      process_file E p out w =
      (World (match upd with
              | Some txt => <[preprocessed_path (new_converter p out []) := txt]> (fs w)
              | None => fs w
              end)
             (log w ++ [InfoSeparator; InfoProcessing p] ++ recs),
       r).
Proof.
  unfold process_file, init.
  destruct (fitz_open E p) as [d | e] eqn:Hopen.
  - destruct (process_pages (new_converter p out d) d) as [c' | e] eqn:Hpages.
    + pose proof (process_pages_emit _ _ _ Hpages) as (bodies & _ & Hc').
      assert (Hpath : preprocessed_path c' = preprocessed_path (new_converter p out []))
        by (rewrite Hc'; reflexivity).
      destruct (open_w E (preprocessed_path c')) as [| e | n e] eqn:Hw.
      * exists (Some (md_text c')), [InfoOpened p; InfoWritten (preprocessed_path c')],
          (Return tt).
        intros w. unfold bind, logger, ret, process, lift, bind. cbn [doc new_converter].
        rewrite Hpages. unfold write_file. rewrite Hw. unfold bind, logger.
        cbn [fs log]. rewrite Hpath, <- !app_assoc. reflexivity.
      * exists None, [InfoOpened p; ErrorWriteFailed (preprocessed_path c') e],
          (Raise e).
        intros w. unfold bind, logger, ret, process, lift, bind. cbn [doc new_converter].
        rewrite Hpages. unfold write_file. rewrite Hw. unfold bind, logger, raise.
        cbn [fs log]. rewrite <- !app_assoc. reflexivity.
      * exists (Some (take n (md_text c'))),
          [InfoOpened p; ErrorWriteFailed (preprocessed_path c') e], (Raise e).
        intros w. unfold bind, logger, ret, process, lift, bind. cbn [doc new_converter].
        rewrite Hpages. unfold write_file. rewrite Hw. unfold bind, logger, raise.
        cbn [fs log]. rewrite Hpath, <- !app_assoc. reflexivity.
    + exists None, [InfoOpened p], (Raise e).
      intros w. unfold bind, logger, ret, process, lift, bind. cbn [doc new_converter].
      rewrite Hpages. cbn [fs log]. rewrite <- !app_assoc. reflexivity.
  - exists None, [ErrorOpenFailed p e], (Raise e).
    intros w. unfold bind, logger, raise. cbn [fs log].
    rewrite <- !app_assoc. reflexivity.
Qed.

(** The same for a list of files: the files written are given by a fixed
    partial map from paths to texts, which is undefined off the output
    paths of the listed documents. *)
Lemma process_files_shape (E : env) (ps : list path) (out : path) :
  exists (g : path -> option pystr) (recs : list log_record) (r : outcome unit),
    (forall q, (forall p, p ∈ ps -> q <> preprocessed_path (new_converter p out [])) ->
               g q = None) /\
    forall w,
      snd (process_files E ps out w) = r /\
      log (fst (process_files E ps out w)) = log w ++ recs /\
      forall q, fs (fst (process_files E ps out w)) !! q =
                match g q with Some v => Some v | None => fs w !! q end.
Proof.
  induction ps as [|p ps IH].
  - exists (fun _ => None), [], (Return tt). split; [reflexivity |].
    intros w. cbn. rewrite app_nil_r. auto.
  - destruct (process_file_shape E p out) as (upd & recs1 & r1 & Hp).
    destruct IH as (g2 & recs2 & r2 & Hg2 & Hps).
    set (t := preprocessed_path (new_converter p out [])) in *.
    set (g1 := fun q : path =>
                 match upd with
                 | Some txt => if decide (t = q) then Some txt else None
                 | None => None
                 end).
    assert (Hg1 : forall (m : gmap path pystr) q,
              (match upd with Some txt => <[t := txt]> m | None => m end) !! q =
              match g1 q with Some v => Some v | None => m !! q end).
    { intros m q. unfold g1. destruct upd as [txt |]; [| reflexivity].
      rewrite lookup_insert. destruct (decide (t = q)); reflexivity. }
    destruct r1 as [[] | e].
    + exists (fun q => match g2 q with Some v => Some v | None => g1 q end),
        ([InfoSeparator; InfoProcessing p] ++ recs1 ++ recs2), r2.
      split.
      * intros q Hq. rewrite Hg2 by (intros p' Hp'; apply Hq; right; exact Hp').
        unfold g1. destruct upd; [| reflexivity].
        destruct (decide (t = q)) as [<- | _]; [| reflexivity].
        destruct (Hq p); [left | reflexivity].
      * intros w. cbn [process_files]. unfold bind. rewrite Hp.
        destruct (Hps (World (match upd with
                              | Some txt => <[t := txt]> (fs w)
                              | None => fs w
                              end)
                             (log w ++ [InfoSeparator; InfoProcessing p] ++ recs1)))
          as (Hr & Hlog & Hfs).
        split; [exact Hr |]. split.
        -- rewrite Hlog. cbn [log]. rewrite <- !app_assoc. reflexivity.
        -- intros q. rewrite Hfs. cbn [fs]. rewrite Hg1.
           destruct (g2 q); reflexivity.
    + exists g1, ([InfoSeparator; InfoProcessing p] ++ recs1), (Raise e).
      split.
      * intros q Hq. unfold g1. destruct upd; [| reflexivity].
        destruct (decide (t = q)) as [<- | _]; [| reflexivity].
        destruct (Hq p); [left | reflexivity].
      * intros w. cbn [process_files]. unfold bind. rewrite Hp.
        cbn [fst snd fs log]. split; [reflexivity |]. split; [reflexivity |].
        intros q. apply Hg1.
Qed.

(** The loop body logs the separator and the file it starts, and no
    other record that names a file as started. *)
Lemma process_file_records (E : env) (p out : path) (w : world) :
  exists recs,
    log (fst (process_file E p out w)) =
      log w ++ [InfoSeparator; InfoProcessing p] ++ recs /\
    forall q, InfoProcessing q ∉ recs.
Proof.
  assert (Hnot : forall (l : list log_record),
            Forall (fun r => match r with InfoProcessing _ => False | _ => True end) l ->
            forall q, InfoProcessing q ∉ l).
  { intros l Hl q Hin. rewrite Forall_forall in Hl. exact (Hl _ Hin). }
  unfold process_file, init.
  destruct (fitz_open E p) as [d | e].
  - destruct (process_pages (new_converter p out d) d) as [c' | e] eqn:Hpages.
    + destruct (open_w E (preprocessed_path c')) as [| e | n e] eqn:Hw;
        unfold bind, logger, ret, process, lift, bind; cbn [doc new_converter];
        rewrite Hpages; unfold write_file; rewrite Hw;
        unfold bind, logger, raise; cbn [fst fs log]; eexists;
        (split; [rewrite <- !app_assoc; reflexivity |]);
        apply Hnot; repeat constructor.
    + unfold bind, logger, ret, process, lift, bind. cbn [doc new_converter].
      rewrite Hpages. cbn [fst log]. exists [InfoOpened p].
      split; [rewrite <- !app_assoc; reflexivity |].
      apply Hnot; repeat constructor.
  - unfold bind, logger, raise. cbn [fst fs log]. exists [ErrorOpenFailed p e].
    split; [rewrite <- !app_assoc; reflexivity |].
    apply Hnot; repeat constructor.
Qed.

(** Only the files of the list are started. *)
Lemma process_files_started (E : env) (ps : list path) (out : path) (w : world)
    (q : path) :
  InfoProcessing q ∈ log (fst (process_files E ps out w)) ->
  InfoProcessing q ∈ log w \/ q ∈ ps.
Proof.
  revert w. induction ps as [|p ps IH]; intros w; [cbn; auto |].
  cbn [process_files]. unfold bind.
  destruct (process_file_records E p out w) as (recs & Hlog & Hrecs).
  assert (Hone : InfoProcessing q ∈ log (fst (process_file E p out w)) ->
                 InfoProcessing q ∈ log w \/ q ∈ p :: ps).
  { rewrite Hlog, !elem_of_app. intros [H | [H | H]]; [auto | | destruct (Hrecs q H)].
    apply elem_of_cons in H as [H | H]; [discriminate |].
    apply elem_of_cons in H as [[= ->] | H]; [right; left | inversion H]. }
  destruct (process_file E p out w) as [w1 [[] | e]]; cbn [fst] in *.
  - intros H. destruct (IH w1 H) as [H1 | H1]; [auto | right; right; exact H1].
  - exact Hone.
Qed.

(** C1, as the code has it.  [process_all] has no handler of its own: when
    a document of the folder fails, after the documents before it were
    processed, the error leaves [process_all] with the world as the failing
    document left it, whatever documents follow: none of them is started,
    and no file other than the outputs of the documents up to the failing
    one is written. *)
Theorem batch_stops_at_failure (E : env) (input out : path)
    (pre : list path) (p : path) (post : list path)
    (w w1 w2 : world) (e : exn) :
  glob_pdf E input = pre ++ p :: post ->
  process_files E pre out w = (w1, Return tt) ->
  process_file E p out w1 = (w2, Raise e) ->
  process_all E input out w = (w2, Raise e) /\
  (forall post', process_files E (pre ++ p :: post') out w = (w2, Raise e)) /\
  (forall q, InfoProcessing q ∈ log w2 ->
             InfoProcessing q ∈ log w \/ q ∈ pre ++ [p]) /\
  (forall q,
     (forall p', p' ∈ pre ++ [p] ->
                 q <> preprocessed_path (new_converter p' out [])) ->
     fs w2 !! q = fs w !! q).
Proof.
  intros Hglob Hpre Hp.
  assert (Hany : forall post',
            process_files E (pre ++ p :: post') out w = (w2, Raise e)).
  { intros post'. rewrite (process_files_app E out pre _ w w1 Hpre).
    apply process_files_raise. exact Hp. }
  split; [unfold process_all; rewrite Hglob; apply Hany |].
  split; [exact Hany |].
  assert (Hw2 : w2 = fst (process_files E (pre ++ [p]) out w))
    by (rewrite (Hany []); reflexivity).
  split.
  - intros q Hq. rewrite Hw2 in Hq. exact (process_files_started _ _ _ _ _ Hq).
  - intros q Hq.
    destruct (process_files_shape E (pre ++ [p]) out) as (g & recs & r & Hg & Hps).
    destruct (Hps w) as (_ & _ & Hfs). rewrite Hw2, Hfs, (Hg q Hq). reflexivity.
Qed.

Lemma batch_stops_at_failure_witness :
  let w2 :=
    World (<[Samples.a_md := page_block 1 []]> ∅)
          [InfoSeparator; InfoProcessing Samples.a_pdf;
           InfoOpened Samples.a_pdf; InfoWritten Samples.a_md;
           InfoSeparator; InfoProcessing Samples.b_pdf;
           ErrorOpenFailed Samples.b_pdf FileDataError] in
  process_all MoreSamples.env_second_fails (lit "./input_data/documents/")
    Samples.out_dir Samples.empty_world = (w2, Raise FileDataError) /\
  (forall post',
     process_files MoreSamples.env_second_fails
       ([Samples.a_pdf] ++ Samples.b_pdf :: post') Samples.out_dir
       Samples.empty_world = (w2, Raise FileDataError)) /\
  (forall q, InfoProcessing q ∈ log w2 ->
             InfoProcessing q ∈ log Samples.empty_world \/
             q ∈ [Samples.a_pdf] ++ [Samples.b_pdf]) /\
  (forall q,
     (forall p', p' ∈ [Samples.a_pdf] ++ [Samples.b_pdf] ->
                 q <> preprocessed_path (new_converter p' Samples.out_dir [])) ->
     fs w2 !! q = fs Samples.empty_world !! q).
Proof.
  exact (batch_stops_at_failure MoreSamples.env_second_fails
           (lit "./input_data/documents/") Samples.out_dir
           [Samples.a_pdf] Samples.b_pdf [MoreSamples.c_pdf]
           Samples.empty_world
           (World (<[Samples.a_md := page_block 1 []]> ∅)
              [InfoSeparator; InfoProcessing Samples.a_pdf;
               InfoOpened Samples.a_pdf; InfoWritten Samples.a_md])
           (World (<[Samples.a_md := page_block 1 []]> ∅)
              [InfoSeparator; InfoProcessing Samples.a_pdf;
               InfoOpened Samples.a_pdf; InfoWritten Samples.a_md;
               InfoSeparator; InfoProcessing Samples.b_pdf;
               ErrorOpenFailed Samples.b_pdf FileDataError])
           FileDataError eq_refl eq_refl eq_refl).
Defined.

Lemma process_file_outcome_any_world (E : env) (p out : path) (w w' : world) :
  snd (process_file E p out w) = snd (process_file E p out w').
Proof.
  destruct (process_file_shape E p out) as (upd & recs & r & H).
  rewrite (H w), (H w'). reflexivity.
Qed.

Lemma process_files_succeeds_iff (E : env) (ps : list path) (out : path) (w : world) :
  snd (process_files E ps out w) = Return tt <->
  forall p, p ∈ ps -> snd (process_file E p out w) = Return tt.
Proof.
  revert w. induction ps as [|p ps IH]; intros w.
  - split; [intros _ p Hp; inversion Hp | reflexivity].
  - cbn [process_files]. unfold bind.
    destruct (process_file E p out w) as [w1 r1] eqn:Hp1.
    destruct r1 as [[] | e].
    + rewrite IH. split.
      * intros Hall p' Hin. apply elem_of_cons in Hin as [-> | Hin].
        -- rewrite Hp1. reflexivity.
        -- rewrite (process_file_outcome_any_world E p' out w w1). auto.
      * intros Hall p' Hin.
        rewrite (process_file_outcome_any_world E p' out w1 w).
        apply Hall. right. exact Hin.
    + split; [discriminate |]. intros Hall.
      specialize (Hall p ltac:(left)). rewrite Hp1 in Hall. exact Hall.
Qed.

(** X14. [process_all] ends without an exception exactly when every PDF
    of the folder, processed on its own, ends without one: whether a
    document succeeds does not depend on the documents before it. *)
Theorem process_all_succeeds_iff (E : env) (input out : path) (w : world) :
  snd (process_all E input out w) = Return tt <->
  forall p, p ∈ glob_pdf E input -> snd (process_file E p out w) = Return tt.
Proof. unfold process_all. apply process_files_succeeds_iff. Qed.

(** X15. [process_all] leaves every file, the log file apart, that is
    not the output file of one of the folder's PDFs as it was.  (Every
    record is appended to the log file.) *)
Theorem process_all_other_files (E : env) (input out : path) (w : world) (q : path) :
  q <> log_file ->
  (forall p, p ∈ glob_pdf E input ->
             q <> preprocessed_path (new_converter p out [])) ->
  fs (fst (process_all E input out w)) !! q = fs w !! q.
Proof.
  intros _ Hq. unfold process_all.
  destruct (process_files_shape E (glob_pdf E input) out)
    as (g & recs & r & Hg & Hps).
  destruct (Hps w) as (_ & _ & Hfs). rewrite Hfs, (Hg q Hq). reflexivity.
Qed.

Lemma process_all_other_files_witness :
  fs (fst (process_all Samples.env_ok (lit "./input_data/documents/")
             Samples.out_dir MoreSamples.world_with_notes))
    !! MoreSamples.notes = Some (lit "keep").
Proof.
  rewrite (process_all_other_files Samples.env_ok (lit "./input_data/documents/")
             Samples.out_dir MoreSamples.world_with_notes MoreSamples.notes).
  - apply lookup_singleton_eq.
  - vm_compute. discriminate.
  - intros p Hp. cbn [glob_pdf Samples.env_ok] in Hp.
    apply elem_of_cons in Hp as [-> | Hp]; [vm_compute; discriminate |].
    apply elem_of_cons in Hp as [-> | Hp]; [vm_compute; discriminate |].
    inversion Hp.
Defined.

(** X16. [process_all] never removes a file: every path that held a file
    before holds one afterwards, whatever the outcome. *)
Theorem process_all_keeps_files (E : env) (input out : path) (w : world) :
  dom (fs w) ⊆ dom (fs (fst (process_all E input out w))).
Proof.
  unfold process_all.
  destruct (process_files_shape E (glob_pdf E input) out)
    as (g & recs & r & _ & Hps).
  destruct (Hps w) as (_ & _ & Hfs).
  intros q. rewrite !elem_of_dom, Hfs.
  destruct (g q); [eauto | tauto].
Qed.

(** X17. Running the batch again on the same folder gives the same
    outcome, leaves the files as the first run left them, and logs the same
    records once more. *)
Theorem process_all_rerun (E : env) (input out : path) (w : world) :
  let w1 := fst (process_all E input out w) in
  let w2 := fst (process_all E input out w1) in
  snd (process_all E input out w1) = snd (process_all E input out w) /\
  fs w2 = fs w1 /\
  exists recs, log w1 = log w ++ recs /\ log w2 = log w1 ++ recs.
Proof.
  unfold process_all.
  destruct (process_files_shape E (glob_pdf E input) out)
    as (g & recs & r & _ & Hps).
  cbn zeta.
  destruct (Hps w) as (Hr1 & Hlog1 & Hfs1).
  destruct (Hps (fst (process_files E (glob_pdf E input) out w)))
    as (Hr2 & Hlog2 & Hfs2).
  split; [congruence |]. split.
  - apply map_eq. intros q. rewrite Hfs2, Hfs1. destruct (g q); reflexivity.
  - exists recs. auto.
Qed.

(** X18. An error of a page's decoding leaves [process_all]'s loop body
    unlogged: the records are the separator, the file and the opening, no
    error-level record follows, and no file is written. *)
Theorem page_error_not_logged (E : env) (p out : path) (d : document)
    (e : exn) (w : world) :
  fitz_open E p = Return d ->
  process_pages (new_converter p out d) d = Raise e ->
  process_file E p out w =
  (World (fs w) (log w ++ [InfoSeparator; InfoProcessing p; InfoOpened p]),
   Raise e).
Proof.
  intros Hopen Hpages. unfold process_file, init. rewrite Hopen.
  unfold bind, logger, ret, process, lift, bind. cbn [doc new_converter fs log].
  rewrite Hpages, <- !app_assoc. reflexivity.
Qed.

Lemma page_error_not_logged_witness :
  process_file MoreSamples.env_broken Samples.a_pdf Samples.out_dir
    Samples.empty_world =
  (World ∅ [InfoSeparator; InfoProcessing Samples.a_pdf; InfoOpened Samples.a_pdf],
   Raise RuntimeError).
Proof.
  apply (page_error_not_logged MoreSamples.env_broken Samples.a_pdf
           Samples.out_dir [Samples.empty_page; Samples.broken_page]
           RuntimeError Samples.empty_world).
  - reflexivity.
  - reflexivity.
Defined.

(** X19. A PDF that cannot be opened: the loop body logs the failure at
    error level and raises the error of [fitz.open]; no converter exists,
    [process] does not run and no file is written. *)
Theorem open_failure_logged (E : env) (p out : path) (e : exn) (w : world) :
  fitz_open E p = Raise e ->
  process_file E p out w =
  (World (fs w)
         (log w ++ [InfoSeparator; InfoProcessing p; ErrorOpenFailed p e]),
   Raise e) /\
  forall post,
    process_files E (p :: post) out w =
    (World (fs w)
           (log w ++ [InfoSeparator; InfoProcessing p; ErrorOpenFailed p e]),
     Raise e).
Proof.
  intros Hopen.
  assert (Hfile : process_file E p out w =
    (World (fs w)
           (log w ++ [InfoSeparator; InfoProcessing p; ErrorOpenFailed p e]),
     Raise e)).
  { unfold process_file, init. rewrite Hopen.
    unfold bind, logger, raise. cbn [fs log]. rewrite <- !app_assoc. reflexivity. }
  split; [exact Hfile |]. intros post. apply process_files_raise. exact Hfile.
Qed.

Lemma open_failure_logged_witness :
  process_file Samples.env_open_fails Samples.a_pdf Samples.out_dir
    MoreSamples.world_with_notes =
  (World {[ MoreSamples.notes := lit "keep" ]}
         [InfoSeparator; InfoProcessing Samples.a_pdf;
          ErrorOpenFailed Samples.a_pdf FileDataError],
   Raise FileDataError).
Proof.
  apply (open_failure_logged Samples.env_open_fails Samples.a_pdf
           Samples.out_dir FileDataError MoreSamples.world_with_notes).
  reflexivity.
Defined.

(** ** Column text *)

Lemma join_nonempty (sep s : pystr) (rest : list pystr) :
  s <> [] -> PyStr.join sep (s :: rest) <> [].
Proof.
  intros Hs. destruct rest as [|t rest]; cbn [PyStr.join]; [exact Hs |].
  destruct s; [contradiction | discriminate].
Qed.

Lemma join_outer_chars (pieces : list pystr) :
  Forall (fun s : pystr =>
            s <> [] /\
            (forall c, head s = Some c -> isspace c = false) /\
            (forall c, last s = Some c -> isspace c = false)) pieces ->
  (forall c, head (PyStr.join newline pieces) = Some c -> isspace c = false) /\
  (forall c, last (PyStr.join newline pieces) = Some c -> isspace c = false).
Proof.
  induction 1 as [|s rest (Hne & Hhd & Hlast) Hrest IH].
  - split; intros c H; discriminate H.
  - destruct rest as [|t rest]; [cbn [PyStr.join]; split; assumption |].
    change (PyStr.join newline (s :: t :: rest))
      with (s ++ newline ++ PyStr.join newline (t :: rest)).
    split; intros c.
    + destruct s as [|x s]; [contradiction |]. exact (Hhd c).
    + rewrite !last_app.
      destruct (last (PyStr.join newline (t :: rest))) as [y |] eqn:Hy.
      * intros [= <-]. apply (proj2 IH). reflexivity.
      * exfalso. apply last_None in Hy.
        inversion Hrest as [|? ? (Ht & _) _]; subst.
        exact (join_nonempty newline t rest Ht Hy).
Qed.

(** X20. The text of a column neither starts nor ends with a whitespace
    character, whatever the blocks; with the [strip] of the single-column
    branch, no page body does. *)
Theorem join_block_texts_no_outer_space (blocks : list block) (t : pystr) :
  (forall c, head (join_block_texts blocks) = Some c -> isspace c = false) /\
  (forall c, last (join_block_texts blocks) = Some c -> isspace c = false) /\
  (forall c, head (strip t) = Some c -> isspace c = false) /\
  (forall c, last (strip t) = Some c -> isspace c = false).
Proof.
  assert (H : Forall (fun s : pystr =>
            s <> [] /\
            (forall c, head s = Some c -> isspace c = false) /\
            (forall c, last s = Some c -> isspace c = false))
            (filter (fun s : pystr => s <> [])
               (List.map (fun b => strip (text b)) blocks))).
  { apply Forall_forall. intros s Hs.
    apply list_elem_of_filter in Hs as [Hne Hs].
    apply list_elem_of_In, in_map_iff in Hs as (b & <- & _).
    split; [exact Hne |]. split; [apply strip_head | apply strip_last]. }
  apply join_outer_chars in H. unfold join_block_texts.
  rewrite join_block_texts_pieces.
  destruct H as [H1 H2].
  split; [exact H1 |]. split; [exact H2 |].
  split; [apply strip_head | apply strip_last].
Qed.
